(** * SmolLM2 hosting service: the batch and single-chat handlers

    A shallow embedding of [hosting/app.py] and the properties of its two
    request handlers, [generate_batch] and [chat].

    - Python [str] values are sequences of Unicode code points.
    - The response objects are Python dicts, modelled as finite maps from
      keys to values.
    - The tokenizer and the language model are external: every call into
      them is answered by an arbitrary, possibly stateful and possibly
      failing engine, and is recorded in a journal.
    - Exceptions are explicit: a handler either returns a value or raises. *)

From Stdlib Require Import ZArith NArith List String Ascii Decimal DecimalString DecimalNat Lia.
From stdpp Require Import base option list gmap strings fin_maps.

Local Open Scope string_scope.
Local Open Scope list_scope.
Local Open Scope nat_scope.

(** ** Python strings *)

(** A Python [str] is a sequence of code points. *)
Definition str : Type := list N.

(** The code points of a literal of the source (all of them are ASCII). *)
Definition lit (s : string) : str :=
  List.map N_of_ascii (list_ascii_of_string s).

(** [str.isspace] on one character: the white space of CPython's Unicode
    database, which is what [str.strip()] removes. *)
Definition isspace (c : N) : bool :=
  ((0x09 <=? c) && (c <=? 0x0D) ||
   (0x1C <=? c) && (c <=? 0x1F) ||
   (c =? 0x20) || (c =? 0x85) || (c =? 0xA0) || (c =? 0x1680) ||
   (0x2000 <=? c) && (c <=? 0x200A) ||
   (c =? 0x2028) || (c =? 0x2029) || (c =? 0x202F) || (c =? 0x205F) ||
   (c =? 0x3000))%N.

Fixpoint lstrip (s : str) : str :=
  match s with
  | [] => []
  | c :: s' => if isspace c then lstrip s' else s
  end.

Definition rstrip (s : str) : str := rev (lstrip (rev s)).

(** [s.strip()] *)
Definition strip (s : str) : str := rstrip (lstrip s).

(** Truth value of a string: [not s] holds exactly for the empty string. *)
Definition truthy (s : str) : bool :=
  match s with [] => false | _ :: _ => true end.

(** Truth value of a list: [not l] holds exactly for the empty list. *)
Definition list_truthy {A : Type} (l : list A) : bool :=
  match l with [] => false | _ :: _ => true end.

(** [s == t] on strings. *)
Definition str_eqb (s t : str) : bool := bool_decide (s = t).

(** [a or b] where [a] is a string. *)
Definition str_or (a b : str) : str := if truthy a then a else b.

(** [a or b] where [a] is [str | None]: [None] is false, as is the
    empty string. *)
Definition opt_or (a : option str) (b : str) : str :=
  match a with
  | Some s => str_or s b
  | None => b
  end.

(** The empty string. *)
Definition empty_string : str := [].

(** The one-character string holding a line feed. *)
Definition newline : str := [0x0A%N].

(** [str(i)] for a non-negative integer: its decimal digits. *)
Definition str_of_nat (i : nat) : str :=
  lit (NilEmpty.string_of_uint (Nat.to_uint i)).

(** ** Requests *)

(** [class ChatRequest(BaseModel)].  The fields [chat_id] and
    [user_prompt] are declared [str]: a body in which one of them is
    missing or null is rejected by the model validation before a handler
    runs, so a handler only ever sees strings there.  [system_prompt] is
    [str | None]. *)
Record ChatRequest : Type := {
  chat_id : str;
  system_prompt : option str;
  user_prompt : str
}.

(** [class BatchedRequest(BaseModel)] *)
Record BatchedRequest : Type := {
  queries : list ChatRequest
}.

(** ** Response objects *)

(** The values stored in the response dicts. *)
Inductive pyval : Type :=
| VStr (s : str)
| VBool (b : bool).

#[global] Instance pyval_eq_dec : EqDecision pyval.
Proof. solve_decision. Defined.

(** A Python dict with string keys. *)
Abbreviation dict := (gmap string pyval).

(** [{"chat_id": cid, "error": msg}] *)
Definition error_dict (cid : str) (msg : string) : dict :=
  <["error" := VStr (lit msg)]> (<["chat_id" := VStr cid]> ∅).

(** [{"placeholder": True, "chat_id": cid}] *)
Definition placeholder_dict (cid : str) : dict :=
  <["chat_id" := VStr cid]> (<["placeholder" := VBool true]> ∅).

(** [{"chat_id": cid, "response": text}] *)
Definition response_dict (cid : pyval) (text : str) : dict :=
  <["response" := VStr text]> (<["chat_id" := cid]> ∅).

(** The body returned by [generate_batch]: [{"responses": responses}]. *)
Record BatchedResponse : Type := {
  body_responses : list dict
}.

(** ** The first pass of [generate_batch] *)

(** The three lists the handler builds while it walks the queries. *)
Record pass : Type := {
  responses : list dict;
  valid_prompts : list str;
  valid_indices : list nat
}.

Definition chat_id_required : string :=
  "chat_id is required and cannot be empty".
Definition user_prompt_required : string :=
  "user_prompt is required and cannot be empty".

(** [q.system_prompt or empty], then a line feed, then [q.user_prompt]. *)
Definition prompt_text (q : ChatRequest) : str :=
  opt_or (system_prompt q) empty_string ++ newline ++ user_prompt q.

(** [f"query_{i}"] *)
Definition query_name (i : nat) : str := lit "query_" ++ str_of_nat i.

(** One iteration of [for i, q in enumerate(req.queries)]. *)
Definition first_pass_step (i : nat) (q : ChatRequest) (st : pass) : pass :=
  if negb (truthy (chat_id q)) || str_eqb (strip (chat_id q)) empty_string then
    {| responses := responses st ++
         [error_dict (str_or (chat_id q) (query_name i)) chat_id_required];
       valid_prompts := valid_prompts st;
       valid_indices := valid_indices st |}
  else if negb (truthy (user_prompt q)) || str_eqb (strip (user_prompt q)) empty_string then
    {| responses := responses st ++
         [error_dict (chat_id q) user_prompt_required];
       valid_prompts := valid_prompts st;
       valid_indices := valid_indices st |}
  else
    {| responses := responses st ++ [placeholder_dict (chat_id q)];
       valid_prompts := valid_prompts st ++ [prompt_text q];
       valid_indices := valid_indices st ++ [length (responses st)] |}.

(** The whole loop, started at index [i] in state [st]. *)
Fixpoint first_pass (i : nat) (qs : list ChatRequest) (st : pass) : pass :=
  match qs with
  | [] => st
  | q :: qs' => first_pass (S i) qs' (first_pass_step i q st)
  end.

(** [responses = []; valid_prompts = []; valid_indices = []] *)
Definition empty_pass : pass :=
  {| responses := []; valid_prompts := []; valid_indices := [] |}.

(** ** The batcher as the specification describes it *)

(** A field is blank when nothing is left of it after trimming. *)
Definition blank (s : str) : Prop := strip s = [].

#[global] Instance blank_dec (s : str) : Decision (blank s).
Proof. unfold blank. apply _. Defined.

(** A request passes validation when neither its [chat_id] nor its
    [user_prompt] is blank. *)
Definition valid (q : ChatRequest) : Prop :=
  ¬ blank (chat_id q) ∧ ¬ blank (user_prompt q).

#[global] Instance valid_dec (q : ChatRequest) : Decision (valid q).
Proof. unfold valid. apply _. Defined.

(** The error result of the validation pass for the item at position [i],
    if it has one. *)
Definition validation_error (i : nat) (q : ChatRequest) : option dict :=
  if decide (blank (chat_id q)) then
    Some (error_dict (match chat_id q with [] => query_name i | _ :: _ => chat_id q end)
                     chat_id_required)
  else if decide (blank (user_prompt q)) then
    Some (error_dict (chat_id q) user_prompt_required)
  else None.

(** What the validation pass leaves at position [i]: the error result, or
    the temporary entry of a valid request. *)
Definition first_entry (i : nat) (q : ChatRequest) : dict :=
  match validation_error i q with
  | Some d => d
  | None => placeholder_dict (chat_id q)
  end.

(** The entries of the validation pass for the items from position [i]. *)
Fixpoint pending (i : nat) (qs : list ChatRequest) : list dict :=
  match qs with
  | [] => []
  | q :: qs' => first_entry i q :: pending (S i) qs'
  end.

(** The positions of the valid requests, the first item being at
    position [base]. *)
Fixpoint slots (base : nat) (qs : list ChatRequest) : list nat :=
  match qs with
  | [] => []
  | q :: qs' =>
      if decide (valid q) then base :: slots (S base) qs' else slots (S base) qs'
  end.

(** The prompts sent to the engine: those of the valid requests, in the
    order of the requests. *)
Definition prompts_of (qs : list ChatRequest) : list str :=
  prompt_text <$> filter valid qs.

(** The result list: every invalid request keeps its error result, and
    the valid requests take the generated texts in order.  A valid
    request for which no text is left keeps its temporary entry. *)
Fixpoint reassemble (i : nat) (qs : list ChatRequest) (texts : list str) : list dict :=
  match qs with
  | [] => []
  | q :: qs' =>
      match validation_error i q with
      | Some d => d :: reassemble (S i) qs' texts
      | None =>
          match texts with
          | t :: texts' =>
              response_dict (VStr (chat_id q)) t :: reassemble (S i) qs' texts'
          | [] => placeholder_dict (chat_id q) :: reassemble (S i) qs' []
          end
      end
  end.

(** A success result carries a [response], an error result an [error]. *)
Definition is_success (d : dict) : Prop := is_Some (d !! "response").
Definition is_error (d : dict) : Prop := is_Some (d !! "error").

(** A well-formed result: a [chat_id], exactly one of [response] and
    [error], and no [placeholder]. *)
Definition well_formed (d : dict) : Prop :=
  is_Some (d !! "chat_id") ∧
  ((is_Some (d !! "response") ∧ d !! "error" = None) ∨
   (d !! "response" = None ∧ is_Some (d !! "error"))) ∧
  d !! "placeholder" = None.

(** ** Exceptions *)

(** The exceptions the handlers meet.  All of them are instances of
    Python's [Exception], [HTTPException] included (FastAPI derives it
    from Starlette's, which derives from [Exception]), so an
    [except Exception] clause catches every one of them.  The detail of
    an [HTTPException] is either a literal of the source or [str(e)] for
    a caught exception [e], which is kept symbolic. *)
Inductive exn : Type :=
| HTTPException (status_code : Z) (detail : message)
| IndexError
| KeyError (key : string)
| EngineError (what : str)
with message : Type :=
| Text (s : string)
| StrOf (e : exn).

(** What a call produces: a value, or a raised exception. *)
Inductive Result (A : Type) : Type :=
| Ok (a : A)
| Raised (e : exn).
Arguments Ok {A} a.
Arguments Raised {A} e.

(** The HTTP status FastAPI answers with: 200 when the handler returns,
    the exception's own status when it raises an [HTTPException], and 500
    for any other exception. *)
Definition status_of {A : Type} (r : Result A) : Z :=
  match r with
  | Ok _ => 200
  | Raised (HTTPException code _) => code
  | Raised _ => 500
  end.

(** [l[i]] on a list: raises [IndexError] out of range. *)
Definition list_getitem {A : Type} (l : list A) (i : nat) : Result A :=
  match l !! i with
  | Some x => Ok x
  | None => Raised IndexError
  end.

(** [l[i] = x] on a list: raises [IndexError] out of range. *)
Definition list_setitem {A : Type} (l : list A) (i : nat) (x : A) : Result (list A) :=
  if decide (i < length l) then Ok (<[i := x]> l) else Raised IndexError.

(** [d[k]] on a dict: raises [KeyError] when the key is missing. *)
Definition dict_getitem (d : dict) (k : string) : Result pyval :=
  match d !! k with
  | Some v => Ok v
  | None => Raised (KeyError k)
  end.

(** ** The inference engine and the handlers *)

(** What the tokenizer is called on: one string in [chat], a list of
    strings in [generate_batch]. *)
Inductive tokenizer_input : Type :=
| Single (prompt : str)
| Batch (prompts : list str).

(** ** Two concrete engines *)

(** An engine without state that encodes a prompt as itself, answers
    every prompt with ["echo:"] followed by the prompt, and decodes a row
    as itself. *)
Definition echo_tokenizer (text : tokenizer_input) (w : unit) : Result (list str) * unit :=
  (Ok (match text with Single p => [p] | Batch ps => ps end), w).

Definition echo_generate (inputs : list str) (w : unit) : Result (list str) * unit :=
  (Ok ((fun p => lit "echo:" ++ p) <$> inputs), w).

Definition echo_decode (output : str) (w : unit) : Result str * unit :=
  (Ok output, w).

(** A model whose generation fails. *)
Definition failing_generate (inputs : list str) (w : unit) : Result (list str) * unit :=
  (Raised (EngineError (lit "out of memory")), w).

(** ** Sample requests *)

Definition untitled_request : ChatRequest :=
  {| chat_id := empty_string; system_prompt := None; user_prompt := lit "hi" |}.
Definition request_a : ChatRequest :=
  {| chat_id := lit "a"; system_prompt := Some (lit "be brief"); user_prompt := lit "hi" |}.
Definition blank_prompt_request : ChatRequest :=
  {| chat_id := lit "b"; system_prompt := None; user_prompt := lit "   " |}.
Definition request_c : ChatRequest :=
  {| chat_id := lit "c"; system_prompt := None; user_prompt := lit "bye" |}.

(** Invalid, valid, invalid, valid. *)
Definition mixed_requests : BatchedRequest :=
  {| queries := [untitled_request; request_a; blank_prompt_request; request_c] |}.

(** Two requests, neither of them valid. *)
Definition invalid_requests : BatchedRequest :=
  {| queries := [untitled_request; blank_prompt_request] |}.

(** What the echo engine makes of the mixed requests. *)
Definition mixed_response : BatchedResponse :=
  {| body_responses :=
       [ error_dict (lit "query_0") "chat_id is required and cannot be empty";
         response_dict (VStr (lit "a")) (lit "echo:be brief" ++ newline ++ lit "hi");
         error_dict (lit "b") "user_prompt is required and cannot be empty";
         response_dict (VStr (lit "c")) (lit "echo:" ++ newline ++ lit "bye") ] |}.

(** A model that answers every prompt twice, one that answers the first
    prompt only, and one that answers nothing. *)
Definition doubling_generate (inputs : list str) (w : unit) : Result (list str) * unit :=
  (Ok (inputs ++ inputs), w).

Definition first_row_generate (inputs : list str) (w : unit) : Result (list str) * unit :=
  (Ok (take 1 inputs), w).

Definition silent_generate (inputs : list str) (w : unit) : Result (list str) * unit :=
  (Ok [], w).

(** What the echo tokenizer and the model answering the first prompt
    only make of the mixed requests. *)
Definition short_response : BatchedResponse :=
  {| body_responses :=
       [ error_dict (lit "query_0") "chat_id is required and cannot be empty";
         response_dict (VStr (lit "a")) (lit "be brief" ++ newline ++ lit "hi");
         error_dict (lit "b") "user_prompt is required and cannot be empty";
         placeholder_dict (lit "c") ] |}.

Section Handlers.

(** The tokenizer's output ([BatchEncoding], moved to the device), one
    generated row of the model's output tensor, and the state of the
    library (the model, its random generator, ...). *)
Variables (Encoding Tensor World : Type).

(** The three calls into the library.  Each may change the state of the
    library and may raise.  [model_generate] is [model.generate] under
    the fixed generation configuration of the service. *)
Variable tokenizer_call : tokenizer_input -> World -> Result Encoding * World.
Variable model_generate : Encoding -> World -> Result (list Tensor) * World.
Variable tokenizer_decode : Tensor -> World -> Result str * World.

(** A call into the library, as recorded in the journal. *)
Inductive engine_call : Type :=
| TokenizerCall (text : tokenizer_input)
| GenerateCall (inputs : Encoding)
| DecodeCall (output : Tensor).

(** A journal entry: the call, and the exception it raised if any. *)
Record event : Type := Called {
  call : engine_call;
  failure : option exn
}.

(** The state a handler runs in. *)
Record machine : Type := {
  world : World;
  journal : list event
}.

Definition boot (w : World) : machine := {| world := w; journal := [] |}.

(** Handler code: state passing with exceptions. *)
Definition M (A : Type) : Type := machine -> Result A * machine.

Definition ret {A : Type} (a : A) : M A := fun s => (Ok a, s).

Definition raise {A : Type} (e : exn) : M A := fun s => (Raised e, s).

Definition bind {A B : Type} (m : M A) (f : A -> M B) : M B :=
  fun s =>
    match m s with
    | (Ok a, s') => f a s'
    | (Raised e, s') => (Raised e, s')
    end.

(** A pure step that may raise. *)
Definition lift {A : Type} (r : Result A) : M A := fun s => (r, s).

(** [try: body except Exception as e: handler(e)] *)
Definition try_except {A : Type} (body : M A) (handler : exn -> M A) : M A :=
  fun s =>
    match body s with
    | (Ok a, s') => (Ok a, s')
    | (Raised e, s') => handler e s'
    end.

Definition failure_of {A : Type} (r : Result A) : option exn :=
  match r with
  | Ok _ => None
  | Raised e => Some e
  end.

(** A call into the library: run it and record it. *)
Definition external {A : Type} (c : engine_call)
    (f : World -> Result A * World) : M A :=
  fun s =>
    let '(r, w) := f (world s) in
    (r, {| world := w; journal := journal s ++ [Called c (failure_of r)] |}).

(** [tokenizer(text, return_tensors="pt", ...).to(device)] *)
Definition tokenizer (text : tokenizer_input) : M Encoding :=
  external (TokenizerCall text) (tokenizer_call text).

(** [model.generate] on the unpacked [inputs] and [gen_config] *)
Definition generate (inputs : Encoding) : M (list Tensor) :=
  external (GenerateCall inputs) (model_generate inputs).

(** [tokenizer.decode(output, skip_special_tokens=True)] *)
Definition decode (output : Tensor) : M str :=
  external (DecodeCall output) (tokenizer_decode output).

Notation "x <- m ;; k" := (bind m (fun x => k))
  (at level 100, m at next level, right associativity).

(** [for j, output in enumerate(outputs)]: the loop that replaces the
    placeholders, from index [j] on. *)
Fixpoint replace_placeholders (indices : list nat) (j : nat)
    (outputs : list Tensor) (rs : list dict) : M (list dict) :=
  match outputs with
  | [] => ret rs
  | output :: outputs' =>
      text <- decode output ;;
      response_index <- lift (list_getitem indices j) ;;
      old <- lift (list_getitem rs response_index) ;;
      cid <- lift (dict_getitem old "chat_id") ;;
      rs' <- lift (list_setitem rs response_index (response_dict cid text)) ;;
      replace_placeholders indices (S j) outputs' rs'
  end.

(** [generate_batch(req)] *)
Definition generate_batch (req : BatchedRequest) : M BatchedResponse :=
  try_except
    (if negb (list_truthy (queries req)) then
       raise (HTTPException 400 (Text "queries array required and must be non-empty"))
     else
       let st := first_pass 0 (queries req) empty_pass in
       rs <- (if list_truthy (valid_prompts st) then
                inputs <- tokenizer (Batch (valid_prompts st)) ;;
                outputs <- generate inputs ;;
                replace_placeholders (valid_indices st) 0 outputs (responses st)
              else ret (responses st)) ;;
       ret {| body_responses := rs |})
    (fun e => raise (HTTPException 500 (StrOf e))).

(** [chat(req)] *)
Definition chat (req : ChatRequest) : M dict :=
  try_except
    (if negb (truthy (chat_id req)) || negb (truthy (user_prompt req)) then
       raise (HTTPException 400 (Text "chat_id and user_prompt are required"))
     else
       let prompt := opt_or (system_prompt req) empty_string ++ newline ++ user_prompt req in
       inputs <- tokenizer (Single prompt) ;;
       outputs <- generate inputs ;;
       output <- lift (list_getitem outputs 0) ;;
       text <- decode output ;;
       ret (response_dict (VStr (chat_id req)) text))
    (fun e => raise (HTTPException 500 (StrOf e))).


(** The texts of the generated rows, decoded in order. *)
Fixpoint decode_each (outputs : list Tensor) (w : World) : Result (list str) * World :=
  match outputs with
  | [] => (Ok [], w)
  | output :: outputs' =>
      match tokenizer_decode output w with
      | (Ok text, w1) =>
          match decode_each outputs' w1 with
          | (Ok texts, w2) => (Ok (text :: texts), w2)
          | (Raised e, w2) => (Raised e, w2)
          end
      | (Raised e, w1) => (Raised e, w1)
      end
  end.

(** The engine's side of the interface: it answers a list of prompts
    with exactly one generated row per prompt. *)
Definition one_output_per_prompt : Prop :=
  ∀ prompts w inputs w1 outputs w2,
    tokenizer_call (Batch prompts) w = (Ok inputs, w1) →
    model_generate inputs w1 = (Ok outputs, w2) →
    length outputs = length prompts.

(** An engine none of whose calls raises. *)
Definition engine_never_raises : Prop :=
  (∀ text w, failure_of (tokenizer_call text w).1 = None) ∧
  (∀ inputs w, failure_of (model_generate inputs w).1 = None) ∧
  (∀ output w, failure_of (tokenizer_decode output w).1 = None).

Definition is_decode_call (ev : event) : bool :=
  match call ev with DecodeCall _ => true | _ => false end.

(** The arguments of the tokenizer calls of a journal, in order. *)
Definition tokenizer_calls (evs : list event) : list tokenizer_input :=
  omap (λ ev, match call ev with TokenizerCall text => Some text | _ => None end) evs.

(** The arguments of the calls of [model.generate] of a journal. *)
Definition generate_calls (evs : list event) : list Encoding :=
  omap (λ ev, match call ev with GenerateCall inputs => Some inputs | _ => None end) evs.

(** The number of valid requests before position [k]: the position of
    the request at [k] in the list of prompts, when it is valid. *)
Definition rank (k : nat) (qs : list ChatRequest) : nat :=
  length (filter valid (take k qs)).

(** The body of the reassembly loop once the text is decoded: look up
    the recorded position, read the entry there and overwrite it. *)
Definition store_response (indices : list nat) (j : nat) (text : str)
    (rs : list dict) : Result (list dict) :=
  match list_getitem indices j with
  | Ok response_index =>
      match list_getitem rs response_index with
      | Ok old =>
          match dict_getitem old "chat_id" with
          | Ok cid => list_setitem rs response_index (response_dict cid text)
          | Raised e => Raised e
          end
      | Raised e => Raised e
      end
  | Raised e => Raised e
  end.

(** What [except Exception as e] raises in both handlers. *)
Definition internal_error (e : exn) : exn := HTTPException 500 (StrOf e).

(** The state after one more recorded call. *)
Definition record (c : engine_call) (f : option exn) (w : World) (s : machine) : machine :=
  {| world := w; journal := journal s ++ [Called c f] |}.

(** ** The validation pass *)

Lemma strip_nil : strip [] = [].
Proof. reflexivity. Qed.

(** The test the batch handler writes, [not s] or [s.strip()] empty, decides
    blankness. *)
Lemma blank_check (s : str) :
  negb (truthy s) || str_eqb (strip s) empty_string = bool_decide (blank s).
Proof.
  destruct s as [|c s]; [reflexivity|].
  unfold str_eqb. simpl. by apply bool_decide_ext.
Qed.

Lemma first_pass_step_spec (i : nat) (q : ChatRequest) (st : pass) :
  first_pass_step i q st =
  {| responses := responses st ++ [first_entry i q];
     valid_prompts := valid_prompts st ++ (if decide (valid q) then [prompt_text q] else []);
     valid_indices := valid_indices st ++
       (if decide (valid q) then [length (responses st)] else []) |}.
Proof.
  unfold first_pass_step, first_entry, validation_error.
  rewrite !blank_check.
  destruct (decide (blank (chat_id q))) as [Hc|Hc].
  - rewrite bool_decide_eq_true_2 by done.
    destruct (decide (valid q)) as [[? _]|_]; [done|].
    rewrite !app_nil_r. clear Hc.
    unfold str_or, truthy. by destruct (chat_id q).
  - rewrite (bool_decide_eq_false_2 _ Hc).
    destruct (decide (blank (user_prompt q))) as [Hu|Hu].
    + rewrite bool_decide_eq_true_2 by done.
      destruct (decide (valid q)) as [[_ ?]|_]; [done|].
      by rewrite !app_nil_r.
    + rewrite (bool_decide_eq_false_2 _ Hu).
      destruct (decide (valid q)) as [_|Hn]; [done|].
      destruct Hn. by split.
Qed.

Lemma first_pass_spec (qs : list ChatRequest) :
  ∀ (i : nat) (st : pass),
    first_pass i qs st =
    {| responses := responses st ++ pending i qs;
       valid_prompts := valid_prompts st ++ prompts_of qs;
       valid_indices := valid_indices st ++ slots (length (responses st)) qs |}.
Proof.
  unfold prompts_of.
  induction qs as [|q qs IH]; intros i st; simpl.
  - rewrite !app_nil_r. by destruct st.
  - rewrite IH, first_pass_step_spec. simpl.
    rewrite length_app, Nat.add_1_r, filter_cons. simpl.
    rewrite <- !app_assoc. simpl.
    by destruct (decide (valid q)).
Qed.

Lemma first_pass_start (qs : list ChatRequest) :
  first_pass 0 qs empty_pass =
  {| responses := pending 0 qs;
     valid_prompts := prompts_of qs;
     valid_indices := slots 0 qs |}.
Proof. by rewrite first_pass_spec. Qed.

Lemma length_pending (qs : list ChatRequest) :
  ∀ i, length (pending i qs) = length qs.
Proof. induction qs as [|q qs IH]; intros i; simpl; [done|]. by rewrite IH. Qed.

Lemma length_reassemble (qs : list ChatRequest) :
  ∀ i texts, length (reassemble i qs texts) = length qs.
Proof.
  induction qs as [|q qs IH]; intros i texts; simpl; [done|].
  destruct (validation_error i q); [simpl; by rewrite IH|].
  destruct texts; simpl; by rewrite IH.
Qed.

Lemma reassemble_nil (qs : list ChatRequest) :
  ∀ i, reassemble i qs [] = pending i qs.
Proof.
  induction qs as [|q qs IH]; intros i; simpl; [done|].
  unfold first_entry. destruct (validation_error i q); by rewrite IH.
Qed.

Lemma slots_succ (qs : list ChatRequest) :
  ∀ base, slots (S base) qs = S <$> slots base qs.
Proof.
  induction qs as [|q qs IH]; intros base; simpl; [done|].
  destruct (decide (valid q)); simpl; by rewrite IH.
Qed.

Lemma length_slots (qs : list ChatRequest) :
  ∀ base, length (slots base qs) = length (filter valid qs).
Proof.
  induction qs as [|q qs IH]; intros base; simpl; [done|].
  rewrite filter_cons. destruct (decide (valid q)); simpl; by rewrite IH.
Qed.

Lemma length_prompts_of (qs : list ChatRequest) :
  length (prompts_of qs) = length (filter valid qs).
Proof. unfold prompts_of. by rewrite length_fmap. Qed.

Lemma validation_error_valid (i : nat) (q : ChatRequest) :
  valid q ↔ validation_error i q = None.
Proof.
  unfold valid, validation_error.
  destruct (decide (blank (chat_id q))) as [Hc|Hc];
    [split; [intros [? _]; contradiction | discriminate]|].
  destruct (decide (blank (user_prompt q))) as [Hu|Hu];
    [split; [intros [_ ?]; contradiction | discriminate]|].
  by split.
Qed.

(** Writing the next text into its recorded position gives the result
    list for one more text. *)
Lemma reassemble_step (qs : list ChatRequest) :
  ∀ (i : nat) (used : list str) (p : nat),
    slots 0 qs !! length used = Some p →
    ∃ cid, reassemble i qs used !! p = Some (placeholder_dict cid) ∧
           ∀ t, <[p := response_dict (VStr cid) t]> (reassemble i qs used)
                = reassemble i qs (used ++ [t]).
Proof.
  induction qs as [|q qs IH]; intros i used p Hp; simpl in *; [done|].
  destruct (decide (valid q)) as [Hv|Hv].
  - apply (validation_error_valid i) in Hv. rewrite Hv.
    destruct used as [|t0 used]; simpl in *.
    + injection Hp as <-. exists (chat_id q). split; [done|].
      intros t. by rewrite reassemble_nil.
    + rewrite slots_succ, list_lookup_fmap in Hp.
      destruct (slots 0 qs !! length used) as [p'|] eqn:Hp'; [|done].
      injection Hp as <-.
      destruct (IH (S i) used p' Hp') as (cid & Hl & Hi).
      exists cid. split; [done|]. intros t. simpl. by rewrite Hi.
  - destruct (validation_error i q) as [d|] eqn:Hd;
      [|by apply validation_error_valid in Hd].
    rewrite slots_succ, list_lookup_fmap in Hp.
    destruct (slots 0 qs !! length used) as [p'|] eqn:Hp'; [|done].
    injection Hp as <-.
    destruct (IH (S i) used p' Hp') as (cid & Hl & Hi).
    exists cid. split; [done|]. intros t. simpl. by rewrite Hi.
Qed.

(** ** The reassembly loop *)

Lemma placeholder_chat_id (cid : str) :
  placeholder_dict cid !! "chat_id" = Some (VStr cid).
Proof. unfold placeholder_dict. by rewrite lookup_insert_eq. Qed.

Lemma decode_each_length (outputs : list Tensor) :
  ∀ w texts w', decode_each outputs w = (Ok texts, w') → length texts = length outputs.
Proof.
  induction outputs as [|o outputs IH]; intros w texts w' H; simpl in H.
  - by injection H as <- <-.
  - destruct (tokenizer_decode o w) as [[t|e] w1]; [|done].
    destruct (decode_each outputs w1) as [[ts|e] w2] eqn:Hts; [|done].
    injection H as <- <-. simpl. f_equal. eauto.
Qed.

(** One iteration of the loop. *)
Lemma replace_placeholders_cons (indices : list nat) (j : nat) (o : Tensor)
    (outputs : list Tensor) (rs : list dict) (s : machine) :
  replace_placeholders indices j (o :: outputs) rs s =
  match tokenizer_decode o (world s) with
  | (Ok t, w1) =>
      match store_response indices j t rs with
      | Ok rs' =>
          replace_placeholders indices (S j) outputs rs' (record (DecodeCall o) None w1 s)
      | Raised e => (Raised e, record (DecodeCall o) None w1 s)
      end
  | (Raised e, w1) => (Raised e, record (DecodeCall o) (Some e) w1 s)
  end.
Proof.
  simpl. unfold bind at 1. unfold decode, external, record, store_response.
  destruct (tokenizer_decode o (world s)) as [[t|e] w1]; [|done]. simpl.
  unfold bind at 1. unfold lift at 1.
  destruct (list_getitem indices j) as [p|e]; [|done].
  unfold bind at 1. unfold lift at 1.
  destruct (list_getitem rs p) as [old|e]; [|done].
  unfold bind at 1. unfold lift at 1.
  destruct (dict_getitem old "chat_id") as [cid|e]; [|done].
  unfold bind at 1. unfold lift at 1.
  by destruct (list_setitem rs p (response_dict cid t)).
Qed.

(** At a recorded position the body of the loop succeeds, and gives the
    result list for one more text. *)
Lemma store_response_slot (qs : list ChatRequest) (used : list str) (t : str) :
  length used < length (slots 0 qs) →
  store_response (slots 0 qs) (length used) t (reassemble 0 qs used)
  = Ok (reassemble 0 qs (used ++ [t])).
Proof.
  intros Hlt. apply lookup_lt_is_Some_2 in Hlt as [p Hp].
  destruct (reassemble_step qs 0 used p Hp) as (cid & Hl & Hi).
  unfold store_response, list_getitem. rewrite Hp, Hl.
  unfold dict_getitem. rewrite placeholder_chat_id.
  unfold list_setitem. apply lookup_lt_Some in Hl.
  rewrite decide_True by done. by rewrite Hi.
Qed.

(** Past the recorded positions the body of the loop raises. *)
Lemma store_response_overflow (indices : list nat) (j : nat) (t : str) (rs : list dict) :
  length indices ≤ j → store_response indices j t rs = Raised IndexError.
Proof.
  intros Hge. unfold store_response, list_getitem.
  by rewrite lookup_ge_None_2.
Qed.

Lemma replace_placeholders_ok (qs : list ChatRequest) :
  ∀ (outputs : list Tensor) (used : list str) (s s' : machine) (rs : list dict),
    length used ≤ length (slots 0 qs) →
    replace_placeholders (slots 0 qs) (length used) outputs (reassemble 0 qs used) s
      = (Ok rs, s') →
    ∃ texts, decode_each outputs (world s) = (Ok texts, world s') ∧
             length used + length outputs ≤ length (slots 0 qs) ∧
             rs = reassemble 0 qs (used ++ texts).
Proof.
  induction outputs as [|o outputs IH]; intros used s s' rs Hused H.
  - injection H as <- <-. exists []. rewrite app_nil_r. simpl.
    split_and!; [done|lia|done].
  - rewrite replace_placeholders_cons in H. simpl.
    destruct (tokenizer_decode o (world s)) as [[t|e] w1]; [|done].
    destruct (decide (length used < length (slots 0 qs))) as [Hlt|Hge].
    + rewrite store_response_slot in H by done.
      replace (S (length used)) with (length (used ++ [t])) in H
        by (rewrite length_app; simpl; lia).
      apply IH in H as (texts & Hdec & Hlen & ->);
        [|rewrite length_app; simpl; lia].
      simpl in Hdec. rewrite Hdec. exists (t :: texts).
      rewrite length_app in Hlen. simpl in Hlen.
      rewrite <- app_assoc. simpl. split_and!; [done|lia|done].
    + rewrite store_response_overflow in H by lia. done.
Qed.

Lemma replace_placeholders_returns (qs : list ChatRequest) :
  (∀ output w, failure_of (tokenizer_decode output w).1 = None) →
  ∀ (outputs : list Tensor) (used : list str) (s : machine),
    length used + length outputs ≤ length (slots 0 qs) →
    ∃ rs s',
      replace_placeholders (slots 0 qs) (length used) outputs (reassemble 0 qs used) s
      = (Ok rs, s').
Proof.
  intros Hdec. induction outputs as [|o outputs IH]; intros used s Hlen.
  - by eexists _, _.
  - rewrite replace_placeholders_cons. simpl in Hlen.
    specialize (Hdec o (world s)).
    destruct (tokenizer_decode o (world s)) as [[t|e] w1]; [|done].
    rewrite store_response_slot by lia.
    replace (S (length used)) with (length (used ++ [t]))
      by (rewrite length_app; simpl; lia).
    apply IH. rewrite length_app. simpl. lia.
Qed.

(** The loop only decodes, and a failing call ends it with the call's
    exception. *)
Lemma replace_placeholders_journal (indices : list nat) :
  ∀ (outputs : list Tensor) (j : nat) (rs : list dict) (s : machine),
    ∃ evs,
      journal (replace_placeholders indices j outputs rs s).2 = journal s ++ evs ∧
      Forall (λ ev, is_decode_call ev = true) evs ∧
      ∀ ev e, ev ∈ evs → failure ev = Some e →
              (replace_placeholders indices j outputs rs s).1 = Raised e.
Proof.
  induction outputs as [|o outputs IH]; intros j rs s.
  - exists []. simpl. rewrite app_nil_r. split_and!; [done|done|].
    intros ev e Hin. by apply elem_of_nil in Hin.
  - rewrite replace_placeholders_cons.
    destruct (tokenizer_decode o (world s)) as [[t|e] w1].
    + destruct (store_response indices j t rs) as [rs'|e'].
      * destruct (IH (S j) rs' (record (DecodeCall o) None w1 s))
          as (evs & Hj & Hall & Hfail).
        exists (Called (DecodeCall o) None :: evs).
        rewrite Hj. simpl. rewrite <- app_assoc. split_and!; [done| |].
        -- by constructor.
        -- intros ev e Hin Hev. apply elem_of_cons in Hin as [->|Hin]; [done|eauto].
      * exists [Called (DecodeCall o) None]. simpl. split_and!; [done| |].
        -- by repeat constructor.
        -- intros ev e Hin Hev. apply list_elem_of_singleton in Hin as ->. done.
    + exists [Called (DecodeCall o) (Some e)]. simpl. split_and!; [done| |].
      * by repeat constructor.
      * intros ev e' Hin Hev. apply list_elem_of_singleton in Hin as ->.
        simpl in Hev. by injection Hev as ->.
Qed.

(** ** The batch handler, unfolded *)

Lemma generate_batch_empty (req : BatchedRequest) (s : machine) :
  queries req = [] →
  generate_batch req s =
  (Raised (internal_error
     (HTTPException 400 (Text "queries array required and must be non-empty"))), s).
Proof. intros H. unfold generate_batch, try_except. by rewrite H. Qed.

Lemma generate_batch_unfold (req : BatchedRequest) (s : machine) :
  queries req ≠ [] →
  generate_batch req s =
  let qs := queries req in
  match prompts_of qs with
  | [] => (Ok {| body_responses := pending 0 qs |}, s)
  | _ :: _ =>
      let c1 := TokenizerCall (Batch (prompts_of qs)) in
      match tokenizer_call (Batch (prompts_of qs)) (world s) with
      | (Ok inputs, w1) =>
          let s1 := record c1 None w1 s in
          match model_generate inputs w1 with
          | (Ok outputs, w2) =>
              let s2 := record (GenerateCall inputs) None w2 s1 in
              match replace_placeholders (slots 0 qs) 0 outputs (pending 0 qs) s2 with
              | (Ok rs, s3) => (Ok {| body_responses := rs |}, s3)
              | (Raised e, s3) => (Raised (internal_error e), s3)
              end
          | (Raised e, w2) =>
              (Raised (internal_error e), record (GenerateCall inputs) (Some e) w2 s1)
          end
      | (Raised e, w1) => (Raised (internal_error e), record c1 (Some e) w1 s)
      end
  end.
Proof.
  intros Hne. unfold generate_batch, try_except.
  destruct (queries req) as [|q0 qs0] eqn:Hq; [done|].
  change (negb (list_truthy (q0 :: qs0))) with false. cbv iota.
  rewrite first_pass_start. cbn [responses valid_prompts valid_indices].
  cbv zeta.
  destruct (prompts_of (q0 :: qs0)) as [|p ps] eqn:Hps; [done|].
  cbn [list_truthy]. cbv iota.
  unfold bind at 1. unfold bind at 1. unfold tokenizer, external at 1.
  destruct (tokenizer_call (Batch (p :: ps)) (world s)) as [[inputs|e] w1]; [|done].
  cbn [failure_of]. unfold bind at 1. unfold generate, external at 1.
  cbn [world journal].
  destruct (model_generate inputs w1) as [[outputs|e] w2]; [|done].
  cbn [failure_of]. unfold record. cbn [world journal].
  match goal with |- context [replace_placeholders ?a ?b ?c ?d ?m] =>
    destruct (replace_placeholders a b c d m) as [[rs|e] s3] end; done.
Qed.

(** ** Positions in the result list and in the prompt list *)

Lemma rank_cons (a : ChatRequest) (qs : list ChatRequest) (k : nat) :
  rank (S k) (a :: qs) = if decide (valid a) then S (rank k qs) else rank k qs.
Proof. unfold rank. simpl. rewrite filter_cons. by destruct (decide (valid a)). Qed.

Lemma reassemble_lookup (qs : list ChatRequest) :
  ∀ (i0 : nat) (texts : list str) (k : nat) (q : ChatRequest),
    qs !! k = Some q →
    reassemble i0 qs texts !! k =
    Some (match validation_error (i0 + k) q with
          | Some d => d
          | None =>
              match texts !! rank k qs with
              | Some t => response_dict (VStr (chat_id q)) t
              | None => placeholder_dict (chat_id q)
              end
          end).
Proof.
  induction qs as [|a qs IH]; intros i0 texts k q Hk; [done|].
  destruct k as [|k]; simpl in Hk.
  - injection Hk as ->. simpl. rewrite Nat.add_0_r.
    destruct (validation_error i0 q); [done|]. by destruct texts.
  - rewrite rank_cons, Nat.add_succ_r. simpl.
    destruct (validation_error i0 a) as [d|] eqn:Ha.
    + rewrite decide_False by (rewrite (validation_error_valid i0), Ha; done).
      simpl. by rewrite (IH (S i0) texts k q Hk).
    + rewrite decide_True by (by apply (validation_error_valid i0)).
      destruct texts as [|t texts]; simpl.
      * rewrite (IH (S i0) [] k q Hk). simpl.
        by destruct (validation_error (S (i0 + k)) q).
      * by rewrite (IH (S i0) texts k q Hk).
Qed.

Lemma prompts_of_lookup (qs : list ChatRequest) :
  ∀ (k : nat) (q : ChatRequest),
    qs !! k = Some q → valid q →
    prompts_of qs !! rank k qs = Some (prompt_text q).
Proof.
  unfold prompts_of.
  induction qs as [|a qs IH]; intros k q Hk Hv; [done|].
  destruct k as [|k]; simpl in Hk.
  - injection Hk as ->. rewrite filter_cons, decide_True by done. done.
  - rewrite rank_cons, filter_cons.
    destruct (decide (valid a)); simpl; by apply IH.
Qed.

Lemma rank_lt (qs : list ChatRequest) (k : nat) (q : ChatRequest) :
  qs !! k = Some q → valid q → rank k qs < length (filter valid qs).
Proof.
  intros Hk Hv. rewrite <- length_prompts_of.
  eapply lookup_lt_Some. by apply prompts_of_lookup.
Qed.

(** ** The keys of the result objects *)

Lemma error_dict_keys (cid : str) (msg : string) :
  error_dict cid msg !! "chat_id" = Some (VStr cid) ∧
  error_dict cid msg !! "error" = Some (VStr (lit msg)) ∧
  error_dict cid msg !! "response" = None ∧
  error_dict cid msg !! "placeholder" = None.
Proof. unfold error_dict. split_and!; by simplify_map_eq. Qed.

Lemma response_dict_keys (cid : pyval) (text : str) :
  response_dict cid text !! "chat_id" = Some cid ∧
  response_dict cid text !! "response" = Some (VStr text) ∧
  response_dict cid text !! "error" = None ∧
  response_dict cid text !! "placeholder" = None.
Proof. unfold response_dict. split_and!; by simplify_map_eq. Qed.

Lemma placeholder_dict_keys (cid : str) :
  placeholder_dict cid !! "chat_id" = Some (VStr cid) ∧
  placeholder_dict cid !! "placeholder" = Some (VBool true) ∧
  placeholder_dict cid !! "response" = None ∧
  placeholder_dict cid !! "error" = None.
Proof. unfold placeholder_dict. split_and!; by simplify_map_eq. Qed.

Lemma validation_error_is_error (i : nat) (q : ChatRequest) (d : dict) :
  validation_error i q = Some d → ∃ cid msg, d = error_dict cid msg.
Proof.
  unfold validation_error. intros H.
  destruct (decide (blank (chat_id q))); [injection H as <-; eauto|].
  destruct (decide (blank (user_prompt q))); [injection H as <-; eauto|done].
Qed.

(** ** What the batch handler returns *)

(** Whenever the handler returns, the list it returns is the
    reassembly of the requests with the decoded texts. *)
Lemma generate_batch_ok (req : BatchedRequest) (s s' : machine) (resp : BatchedResponse) :
  generate_batch req s = (Ok resp, s') →
  queries req ≠ [] ∧
  ((prompts_of (queries req) = [] ∧ s' = s ∧
    body_responses resp = reassemble 0 (queries req) []) ∨
   (prompts_of (queries req) ≠ [] ∧
    ∃ inputs w1 outputs w2 texts,
      tokenizer_call (Batch (prompts_of (queries req))) (world s) = (Ok inputs, w1) ∧
      model_generate inputs w1 = (Ok outputs, w2) ∧
      decode_each outputs w2 = (Ok texts, world s') ∧
      length outputs ≤ length (prompts_of (queries req)) ∧
      body_responses resp = reassemble 0 (queries req) texts)).
Proof.
  intros H.
  destruct (decide (queries req = [])) as [He|Hne];
    [by rewrite generate_batch_empty in H|].
  split; [done|]. rewrite generate_batch_unfold in H by done. cbv zeta in H.
  destruct (prompts_of (queries req)) as [|p ps] eqn:Hps.
  - left. injection H as <- <-. by rewrite reassemble_nil.
  - right. split; [done|].
    destruct (tokenizer_call (Batch (p :: ps)) (world s)) as [[inputs|e] w1] eqn:H1; [|done].
    destruct (model_generate inputs w1) as [[outputs|e] w2] eqn:H2; [|done].
    match type of H with context [replace_placeholders ?a ?b ?c ?d ?m] =>
      destruct (replace_placeholders a b c d m) as [[rs|e] s3] eqn:Hloop end; [|done].
    injection H as <- <-.
    rewrite <- reassemble_nil in Hloop.
    apply (replace_placeholders_ok _ _ []) in Hloop as (texts & Hdec & Hlen & ->);
      [|simpl; lia].
    exists inputs, w1, outputs, w2, texts.
    rewrite length_slots, <- length_prompts_of, Hps in Hlen.
    split_and!; [done|done|done|simpl in *; lia|done].
Qed.

(** With an engine that does not raise and answers every prompt, the
    handler returns. *)
Lemma generate_batch_returns (req : BatchedRequest) (s : machine) :
  queries req ≠ [] → engine_never_raises → one_output_per_prompt →
  ∃ resp s', generate_batch req s = (Ok resp, s').
Proof.
  intros Hne (Htok & Hgen & Hdec) Hone.
  rewrite generate_batch_unfold by done. cbv zeta.
  destruct (prompts_of (queries req)) as [|p ps] eqn:Hps; [by eexists _, _|].
  specialize (Htok (Batch (p :: ps)) (world s)).
  destruct (tokenizer_call (Batch (p :: ps)) (world s)) as [[inputs|e] w1] eqn:H1; [|done].
  specialize (Hgen inputs w1).
  destruct (model_generate inputs w1) as [[outputs|e] w2] eqn:H2; [|done].
  pose proof (Hone _ _ _ _ _ _ H1 H2) as Hlen.
  rewrite <- reassemble_nil.
  edestruct (replace_placeholders_returns (queries req) Hdec outputs []) as (rs & s3 & ->);
    [|by eexists _, _].
  simpl. rewrite Hlen, length_slots, <- length_prompts_of, Hps. done.
Qed.

(** ** The calls the batch handler makes *)

Lemma decode_calls_only (evs : list event) :
  Forall (λ ev, is_decode_call ev = true) evs →
  tokenizer_calls evs = [] ∧ generate_calls evs = [].
Proof.
  unfold tokenizer_calls, generate_calls.
  induction 1 as [|ev evs Hev _ [IH1 IH2]]; [done|].
  unfold is_decode_call in Hev. destruct ev as [c f]. simpl in Hev.
  destruct c; done.
Qed.

Lemma generate_batch_journal (req : BatchedRequest) (s : machine) :
  ∃ evs,
    journal (generate_batch req s).2 = journal s ++ evs ∧
    (∀ ev e, ev ∈ evs → failure ev = Some e →
             (generate_batch req s).1 = Raised (internal_error e)) ∧
    match prompts_of (queries req) with
    | [] => evs = []
    | _ :: _ =>
        let c1 := TokenizerCall (Batch (prompts_of (queries req))) in
        match (tokenizer_call (Batch (prompts_of (queries req))) (world s)).1 with
        | Raised e => evs = [Called c1 (Some e)]
        | Ok inputs =>
            ∃ f decs, evs = Called c1 None :: Called (GenerateCall inputs) f :: decs ∧
                      Forall (λ ev, is_decode_call ev = true) decs
        end
    end.
Proof.
  destruct (decide (queries req = [])) as [He|Hne].
  - rewrite generate_batch_empty by done. rewrite He. exists [].
    simpl. rewrite app_nil_r. split_and!; [done| |done].
    intros ev e Hin. by apply elem_of_nil in Hin.
  - rewrite generate_batch_unfold by done. cbv zeta.
    destruct (prompts_of (queries req)) as [|p ps] eqn:Hps.
    { exists []. simpl. rewrite app_nil_r. split_and!; [done| |done].
      intros ev e Hin. by apply elem_of_nil in Hin. }
    destruct (tokenizer_call (Batch (p :: ps)) (world s)) as [[inputs|e] w1].
    2:{ eexists. split_and!; [done| |done].
        intros ev e' Hin Hev. apply list_elem_of_singleton in Hin as ->.
        simpl in Hev. by injection Hev as ->. }
    destruct (model_generate inputs w1) as [[outputs|e] w2].
    2:{ eexists. simpl. rewrite <- app_assoc. split_and!; [done| |].
        - intros ev e' Hin Hev.
          apply elem_of_cons in Hin as [->|Hin]; [done|].
          apply list_elem_of_singleton in Hin as ->.
          simpl in Hev. by injection Hev as ->.
        - by exists (Some e), []. }
    match goal with |- context [replace_placeholders ?a ?b ?c ?d ?m] =>
      destruct (replace_placeholders_journal a c b d m) as (evs & Hj & Hall & Hfail);
      destruct (replace_placeholders a b c d m) as [[rs|e] s3] end;
      simpl in Hj, Hfail |- *; rewrite Hj, <- !app_assoc; simpl.
    + eexists. split_and!; [done| |by exists None, evs].
      intros ev e Hin Hev.
      apply elem_of_cons in Hin as [->|Hin]; [done|].
      apply elem_of_cons in Hin as [->|Hin]; [done|].
      by specialize (Hfail ev e Hin Hev).
    + eexists. split_and!; [done| |by exists None, evs].
      intros ev e' Hin Hev.
      apply elem_of_cons in Hin as [->|Hin]; [done|].
      apply elem_of_cons in Hin as [->|Hin]; [done|].
      specialize (Hfail ev e' Hin Hev). by injection Hfail as ->.
Qed.

Lemma tokenizer_calls_cons (ev : event) (evs : list event) :
  tokenizer_calls (ev :: evs) =
  match call ev with
  | TokenizerCall text => text :: tokenizer_calls evs
  | _ => tokenizer_calls evs
  end.
Proof. destruct ev as [[] ?]; reflexivity. Qed.

Lemma generate_calls_cons (ev : event) (evs : list event) :
  generate_calls (ev :: evs) =
  match call ev with
  | GenerateCall inputs => inputs :: generate_calls evs
  | _ => generate_calls evs
  end.
Proof. destruct ev as [[] ?]; reflexivity. Qed.

Lemma generate_batch_calls (req : BatchedRequest) (w : World) :
  let evs := journal (generate_batch req (boot w)).2 in
  match prompts_of (queries req) with
  | [] => evs = []
  | _ :: _ =>
      tokenizer_calls evs = [Batch (prompts_of (queries req))] ∧
      generate_calls evs =
        match (tokenizer_call (Batch (prompts_of (queries req))) w).1 with
        | Ok inputs => [inputs]
        | Raised _ => []
        end
  end.
Proof.
  destruct (generate_batch_journal req (boot w)) as (evs & Hj & _ & Hshape).
  simpl in Hj, Hshape |- *. rewrite Hj. clear Hj.
  destruct (prompts_of (queries req)) as [|p ps]; [done|]. cbv zeta in Hshape.
  destruct (tokenizer_call (Batch (p :: ps)) w) as [[inputs|e] w1]; simpl in *.
  - destruct Hshape as (f & decs & -> & Hdecs).
    apply decode_calls_only in Hdecs as [H1 H2].
    rewrite !tokenizer_calls_cons, !generate_calls_cons. simpl. by rewrite H1, H2.
  - by rewrite Hshape.
Qed.

(** ** The single-chat handler, unfolded *)

Lemma chat_rejected (req : ChatRequest) (s : machine) :
  chat_id req = [] ∨ user_prompt req = [] →
  chat req s =
  (Raised (internal_error
     (HTTPException 400 (Text "chat_id and user_prompt are required"))), s).
Proof.
  intros H. unfold chat, try_except.
  destruct H as [-> | ->]; simpl; [done|].
  by destruct (chat_id req).
Qed.

Lemma chat_calls (req : ChatRequest) (w : World) :
  chat_id req ≠ [] → user_prompt req ≠ [] →
  tokenizer_calls (journal (chat req (boot w)).2) =
  [Single (opt_or (system_prompt req) empty_string ++ newline ++ user_prompt req)].
Proof.
  intros Hc Hu. unfold chat, try_except.
  destruct (chat_id req) as [|c cs]; [done|].
  destruct (user_prompt req) as [|u us] eqn:Hup; [done|].
  cbn [truthy negb orb]. cbv zeta.
  unfold bind at 1. unfold tokenizer, external at 1. cbn [boot world journal].
  destruct (tokenizer_call _ w) as [[inputs|e] w1]; [|done].
  unfold bind at 1. unfold generate, external at 1. cbn [world journal].
  destruct (model_generate inputs w1) as [[outputs|e] w2]; [|done].
  unfold bind at 1. unfold lift at 1.
  destruct outputs as [|o outputs]; [done|]. cbn [list_getitem lookup list_lookup].
  unfold bind at 1. unfold decode, external at 1. cbn [world journal].
  by destruct (tokenizer_decode o w2) as [[t|e] w3].
Qed.

(** ** Entries of the reassembled list *)

Lemma reassemble_entry (qs : list ChatRequest) (texts : list str) (i : nat) (q : ChatRequest) :
  length texts = length (filter valid qs) →
  qs !! i = Some q →
  ∃ d, reassemble 0 qs texts !! i = Some d ∧
       (is_success d ↔ valid q) ∧
       (is_error d ↔ ¬ valid q) ∧
       (¬ valid q → validation_error i q = Some d) ∧
       (valid q → ∃ text, texts !! rank i qs = Some text ∧
                          d = response_dict (VStr (chat_id q)) text).
Proof.
  intros Hlen Hi. rewrite (reassemble_lookup qs 0 texts i q Hi). simpl.
  destruct (validation_error i q) as [d|] eqn:Hd.
  - assert (¬ valid q) as Hnv by (rewrite (validation_error_valid i), Hd; done).
    exists d. destruct (validation_error_is_error i q d Hd) as (cid & msg & ->).
    destruct (error_dict_keys cid msg) as (_ & He & Hr & _).
    unfold is_success, is_error. rewrite He, Hr.
    split_and!; [done| | |done|done].
    + split; [by intros [? ?]|done].
    + split; [done|by eexists].
  - assert (valid q) as Hv by (by apply (validation_error_valid i)).
    pose proof (rank_lt qs i q Hi Hv) as Hlt. rewrite <- Hlen in Hlt.
    apply lookup_lt_is_Some_2 in Hlt as [t Ht]. rewrite Ht.
    eexists. destruct (response_dict_keys (VStr (chat_id q)) t) as (_ & Hr & He & _).
    unfold is_success, is_error. rewrite He, Hr.
    split_and!; [done| | |done|by eauto].
    + split; [done|by eexists].
    + split; [by intros [? ?]|done].
Qed.

Lemma pending_lookup (qs : list ChatRequest) (i : nat) (q : ChatRequest) :
  qs !! i = Some q → pending 0 qs !! i = Some (first_entry i q).
Proof.
  intros Hi. rewrite <- reassemble_nil, (reassemble_lookup qs 0 [] i q Hi).
  simpl. unfold first_entry. by destruct (validation_error i q).
Qed.

Lemma error_entry_kept (qs : list ChatRequest) (texts : list str) (i : nat)
    (q : ChatRequest) (d : dict) :
  qs !! i = Some q → validation_error i q = Some d →
  reassemble 0 qs texts !! i = Some d.
Proof. intros Hi Hd. rewrite (reassemble_lookup qs 0 texts i q Hi). simpl. by rewrite Hd. Qed.

(** With one output per prompt, the list the handler returns is the
    reassembly with as many texts as there are valid requests. *)
Lemma generate_batch_full (req : BatchedRequest) (s s' : machine) (resp : BatchedResponse) :
  one_output_per_prompt →
  generate_batch req s = (Ok resp, s') →
  ∃ texts, length texts = length (filter valid (queries req)) ∧
           body_responses resp = reassemble 0 (queries req) texts ∧
           (filter valid (queries req) ≠ [] →
            ∃ inputs w1 outputs w2,
              tokenizer_call (Batch (prompts_of (queries req))) (world s) = (Ok inputs, w1) ∧
              model_generate inputs w1 = (Ok outputs, w2) ∧
              decode_each outputs w2 = (Ok texts, world s')).
Proof.
  intros Hone H. apply generate_batch_ok in H as [_ [(Hps & _ & Hr)|(Hps & H)]].
  - exists []. rewrite <- length_prompts_of, Hps. split_and!; [done|done|].
    intros Hne. apply (f_equal length) in Hps.
    rewrite length_prompts_of in Hps. by destruct (filter valid (queries req)).
  - destruct H as (inputs & w1 & outputs & w2 & texts & H1 & H2 & H3 & _ & Hr).
    exists texts. split_and!; [|done|by eauto 10].
    rewrite (decode_each_length _ _ _ _ H3), (Hone _ _ _ _ _ _ H1 H2).
    apply length_prompts_of.
Qed.

Lemma filter_valid_none (qs : list ChatRequest) :
  Forall (λ q, ¬ valid q) qs → filter valid qs = [].
Proof.
  induction 1 as [|q qs Hq _ IH]; [done|].
  by rewrite filter_cons, decide_False.
Qed.

Lemma opt_or_default (o : option str) : opt_or o empty_string = default [] o.
Proof. by destruct o as [[|c cs]|]. Qed.

Lemma valid_nonempty (q : ChatRequest) :
  valid q → chat_id q ≠ [] ∧ user_prompt q ≠ [].
Proof. intros [Hc Hu]. split; intros E; [apply Hc|apply Hu]; by rewrite E. Qed.

Lemma reassemble_well_formed (qs : list ChatRequest) (texts : list str) :
  length texts = length (filter valid qs) →
  Forall well_formed (reassemble 0 qs texts).
Proof.
  intros Hlen. apply Forall_lookup. intros i d Hd.
  destruct (lookup_lt_is_Some_2 qs i) as [q Hq].
  { apply lookup_lt_Some in Hd. by rewrite length_reassemble in Hd. }
  destruct (reassemble_entry qs texts i q Hlen Hq) as (d' & Hd' & _ & _ & Hinv & Hval).
  rewrite Hd in Hd'. injection Hd' as <-.
  destruct (decide (valid q)) as [Hv|Hnv].
  - destruct (Hval Hv) as (text & _ & ->).
    destruct (response_dict_keys (VStr (chat_id q)) text) as (Hc & Hr & He & Hp).
    unfold well_formed. rewrite Hc, Hr, He, Hp.
    split_and!; [by eexists| |done]. left. split; [by eexists|done].
  - destruct (validation_error_is_error i q d (Hinv Hnv)) as (cid & msg & ->).
    destruct (error_dict_keys cid msg) as (Hc & He & Hr & Hp).
    unfold well_formed. rewrite Hc, Hr, He, Hp.
    split_and!; [by eexists| |done]. right. split; [done|by eexists].
Qed.

(** ** Properties of the handlers *)

(** C1: under the engine's side of the interface (one generated row
    per prompt), whenever the batch handler returns, the result at
    position [i] is the result for request [i]: an invalid request has
    its own validation error there, a valid request has a success
    result with its own [chat_id] and the text decoded from the
    generated row at the position its prompt has in the prompt list;
    the result is a success exactly when the request is valid. *)
Theorem batch_results_follow_requests (req : BatchedRequest) (s s' : machine)
    (resp : BatchedResponse) :
  one_output_per_prompt →
  generate_batch req s = (Ok resp, s') →
  ∀ (i : nat) (q : ChatRequest),
    queries req !! i = Some q →
    ∃ d, body_responses resp !! i = Some d ∧
         (is_success d ↔ valid q) ∧
         (is_error d ↔ ¬ valid q) ∧
         (¬ valid q → validation_error i q = Some d) ∧
         (valid q →
          ∃ inputs w1 outputs w2 texts text,
            tokenizer_call (Batch (prompt_text <$> filter valid (queries req))) (world s)
              = (Ok inputs, w1) ∧
            model_generate inputs w1 = (Ok outputs, w2) ∧
            decode_each outputs w2 = (Ok texts, world s') ∧
            (prompt_text <$> filter valid (queries req)) !! rank i (queries req)
              = Some (prompt_text q) ∧
            texts !! rank i (queries req) = Some text ∧
            d = response_dict (VStr (chat_id q)) text).
Proof.
  intros Hone H i q Hi.
  destruct (generate_batch_full req s s' resp Hone H) as (texts & Hlen & Hr & Heng).
  destruct (reassemble_entry (queries req) texts i q Hlen Hi)
    as (d & Hd & Hs & He & Hinv & Hval).
  exists d. rewrite Hr. split_and!; [done|done|done|done|].
  intros Hv. destruct (Hval Hv) as (text & Ht & ->).
  destruct Heng as (inputs & w1 & outputs & w2 & H1 & H2 & H3).
  { intros Hnil. pose proof (rank_lt _ _ _ Hi Hv) as Hlt.
    rewrite Hnil in Hlt. simpl in Hlt. lia. }
  exists inputs, w1, outputs, w2, texts, text.
  split_and!; try done. by apply prompts_of_lookup.
Qed.

(** C2: for a non-empty list of requests, whenever the batch handler
    returns, the list it returns has the length of the list of
    requests; and it does return when the engine does not raise and
    answers every prompt. *)
Theorem batch_length_preserved (req : BatchedRequest) (s : machine) :
  queries req ≠ [] →
  (∀ resp s', generate_batch req s = (Ok resp, s') →
              length (body_responses resp) = length (queries req)) ∧
  (engine_never_raises → one_output_per_prompt →
   ∃ resp s', generate_batch req s = (Ok resp, s') ∧
              length (body_responses resp) = length (queries req)).
Proof.
  intros Hne.
  assert (∀ resp s', generate_batch req s = (Ok resp, s') →
                     length (body_responses resp) = length (queries req)) as Hlen.
  { intros resp s' H.
    apply generate_batch_ok in H as [_ [(_ & _ & ->)|(_ & H)]].
    - apply length_reassemble.
    - destruct H as (? & ? & ? & ? & texts & _ & _ & _ & _ & ->).
      apply length_reassemble. }
  split; [done|]. intros Hnr Hone.
  destruct (generate_batch_returns req s Hne Hnr Hone) as (resp & s' & H).
  exists resp, s'. split; [done|]. by eapply Hlen.
Qed.

(** C3: the only prompt list the batch handler passes to the engine is
    the list of the prompts of the valid requests; an invalid request
    has its error result in the list built by the validation pass,
    and keeps it in whatever the handler returns; when every request
    is invalid no call is made to the engine, and for a non-empty list
    the handler returns error results only. *)
Theorem invalid_requests_stay_local (req : BatchedRequest) (w : World) :
  (∀ text, text ∈ tokenizer_calls (journal (generate_batch req (boot w)).2) →
           text = Batch (prompt_text <$> filter valid (queries req))) ∧
  (∀ (i : nat) (q : ChatRequest),
     queries req !! i = Some q → ¬ valid q →
     ∃ d, is_error d ∧
          responses (first_pass 0 (queries req) empty_pass) !! i = Some d ∧
          ∀ resp s', generate_batch req (boot w) = (Ok resp, s') →
                     body_responses resp !! i = Some d) ∧
  (Forall (λ q, ¬ valid q) (queries req) →
   journal (generate_batch req (boot w)).2 = [] ∧
   (queries req ≠ [] →
    ∃ resp, generate_batch req (boot w) = (Ok resp, boot w) ∧
            length (body_responses resp) = length (queries req) ∧
            Forall is_error (body_responses resp))).
Proof.
  split_and!.
  - intros text Hin. pose proof (generate_batch_calls req w) as Hc.
    cbv zeta in Hc. fold (prompts_of (queries req)).
    destruct (prompts_of (queries req)) as [|p ps].
    + rewrite Hc in Hin. by apply elem_of_nil in Hin.
    + destruct Hc as [Hc _]. rewrite Hc in Hin.
      by apply list_elem_of_singleton in Hin.
  - intros i q Hi Hnv.
    destruct (validation_error i q) as [d|] eqn:Hd;
      [|by apply validation_error_valid in Hd].
    exists d. split_and!.
    + destruct (validation_error_is_error i q d Hd) as (cid & msg & ->).
      destruct (error_dict_keys cid msg) as (_ & He & _). unfold is_error.
      rewrite He. by eexists.
    + rewrite first_pass_start. simpl.
      rewrite (pending_lookup _ _ _ Hi). unfold first_entry. by rewrite Hd.
    + intros resp s' H.
      apply generate_batch_ok in H as [_ [(_ & _ & ->)|(_ & H)]].
      * by apply error_entry_kept with q.
      * destruct H as (? & ? & ? & ? & texts & _ & _ & _ & _ & ->).
        by apply error_entry_kept with q.
  - intros Hall.
    assert (filter valid (queries req) = []) as Hnil.
    { by apply filter_valid_none. }
    assert (prompts_of (queries req) = []) as Hps
      by (unfold prompts_of; by rewrite Hnil).
    split.
    + pose proof (generate_batch_calls req w) as Hc. cbv zeta in Hc.
      by rewrite Hps in Hc.
    + intros Hne. rewrite generate_batch_unfold by done. cbv zeta. rewrite Hps.
      eexists. split; [done|]. simpl. rewrite length_pending. split; [done|].
      apply Forall_lookup. intros i d Hd.
      destruct (lookup_lt_is_Some_2 (queries req) i) as [q Hq].
      { apply lookup_lt_Some in Hd. by rewrite length_pending in Hd. }
      rewrite <- reassemble_nil in Hd.
      destruct (reassemble_entry (queries req) [] i q) as (d' & Hd' & _ & He & _);
        [by rewrite Hnil|done|].
      rewrite Hd in Hd'. injection Hd' as <-. apply He.
      rewrite Forall_lookup in Hall. by eapply Hall.
Qed.

(** C4: the validation pass leaves at the position of an item whose
    [chat_id] is blank the error result with the message
    "chat_id is required and cannot be empty", carrying the original
    [chat_id] when it is not the empty string and ["query_<i>"] for the
    item's position [i] otherwise; and at the position of an item whose
    [chat_id] is not blank and whose [user_prompt] is blank the error
    result with the message "user_prompt is required and cannot be
    empty", carrying the item's [chat_id]. *)
Theorem validation_pass_errors (qs : list ChatRequest) (i : nat) (q : ChatRequest) :
  qs !! i = Some q →
  (blank (chat_id q) →
   responses (first_pass 0 qs empty_pass) !! i =
   Some (error_dict
           (match chat_id q with
            | [] => lit "query_" ++ str_of_nat i
            | _ :: _ => chat_id q
            end)
           "chat_id is required and cannot be empty")) ∧
  (¬ blank (chat_id q) → blank (user_prompt q) →
   responses (first_pass 0 qs empty_pass) !! i =
   Some (error_dict (chat_id q) "user_prompt is required and cannot be empty")).
Proof.
  intros Hi. rewrite first_pass_start. simpl. rewrite (pending_lookup qs i q Hi).
  unfold first_entry, validation_error. split.
  - intros Hc. by rewrite decide_True.
  - intros Hc Hu. by rewrite decide_False, decide_True.
Qed.

(** C5: when at least one request is valid, the batch handler submits
    exactly one prompt list to the engine: the prompts of the valid
    requests, in the order of the requests, as many as there are valid
    requests.  Generation runs at most once, on the encoding of that
    list, and exactly once when the tokenizer returns it; no call is
    repeated after a failure.  Every further call decodes a generated
    row. *)
Theorem batch_calls_engine_once (req : BatchedRequest) (w : World) :
  filter valid (queries req) ≠ [] →
  let prompts := prompt_text <$> filter valid (queries req) in
  let evs := journal (generate_batch req (boot w)).2 in
  tokenizer_calls evs = [Batch prompts] ∧
  length prompts = length (filter valid (queries req)) ∧
  length (generate_calls evs) ≤ 1 ∧
  (∀ inputs w1, tokenizer_call (Batch prompts) w = (Ok inputs, w1) →
                generate_calls evs = [inputs]) ∧
  (∀ e w1, tokenizer_call (Batch prompts) w = (Raised e, w1) →
           generate_calls evs = []) ∧
  Forall (λ ev, is_decode_call ev = true) (drop 2 evs).
Proof.
  intros Hne. cbv zeta. fold (prompts_of (queries req)).
  pose proof (generate_batch_calls req w) as Hc. cbv zeta in Hc.
  destruct (generate_batch_journal req (boot w)) as (evs & Hj & _ & Hshape).
  simpl in Hj, Hshape. rewrite Hj. rewrite Hj in Hc. clear Hj.
  pose proof (length_prompts_of (queries req)) as Hlen.
  destruct (prompts_of (queries req)) as [|p ps].
  { destruct (filter valid (queries req)); done. }
  destruct Hc as [Hc1 Hc2]. cbv zeta in Hshape.
  split_and!; [done|done| | | |].
  - rewrite Hc2. destruct (tokenizer_call _ w) as [[?|?] ?]; simpl; lia.
  - intros inputs w1 H. by rewrite Hc2, H.
  - intros e w1 H. by rewrite Hc2, H.
  - destruct (tokenizer_call _ w) as [[inputs|e] w1]; simpl in Hshape.
    + by destruct Hshape as (f & decs & -> & Hdecs).
    + rewrite Hshape. by simpl.
Qed.

(** C6 (the code departs from it): an empty list of queries makes the
    handler raise the 400 error inside its own [try] block, where the
    [except Exception] clause catches it and raises a 500 error in its
    place. *)
Theorem empty_queries_answered_500 (s : machine) :
  generate_batch {| queries := [] |} s =
  (Raised (HTTPException 500
     (StrOf (HTTPException 400
        (Text "queries array required and must be non-empty")))), s) ∧
  status_of (generate_batch {| queries := [] |} s).1 = 500%Z.
Proof. by rewrite generate_batch_empty. Qed.

(** C7 (the code departs from it): a request with an empty [chat_id]
    makes the single-chat handler raise the 400 error inside its own
    [try] block, where the [except Exception] clause catches it and
    raises a 500 error in its place. *)
Theorem chat_validation_answered_500 (s : machine) :
  let req := {| chat_id := empty_string; system_prompt := None; user_prompt := lit "hi" |} in
  chat req s =
  (Raised (HTTPException 500
     (StrOf (HTTPException 400 (Text "chat_id and user_prompt are required")))), s) ∧
  status_of (chat req s).1 = 500%Z.
Proof. cbv zeta. rewrite chat_rejected; [done|by left]. Qed.

(** The single-chat handler does not trim: a request whose [chat_id] is
    only white space is not valid, and yet its prompt is sent to the
    engine. *)
Lemma chat_accepts_blank_chat_id (w : World) :
  let req := {| chat_id := lit "  "; system_prompt := None; user_prompt := lit "hi" |} in
  ¬ valid req ∧
  tokenizer_calls (journal (chat req (boot w)).2) = [Single (newline ++ lit "hi")].
Proof.
  cbv zeta. split.
  - intros [Hc _]. by apply Hc.
  - by rewrite chat_calls.
Qed.

(** C8: when a call into the engine raises during the batch handler,
    the handler raises a single 500 error built from that exception:
    it returns no result list, whole or partial, and the status of the
    answer is 500. *)
Theorem engine_failure_fails_whole_call (req : BatchedRequest) (w : World)
    (ev : event) (e : exn) :
  ev ∈ journal (generate_batch req (boot w)).2 →
  failure ev = Some e →
  (generate_batch req (boot w)).1 = Raised (HTTPException 500 (StrOf e)) ∧
  status_of (generate_batch req (boot w)).1 = 500%Z.
Proof.
  intros Hin Hev.
  destruct (generate_batch_journal req (boot w)) as (evs & Hj & Hfail & _).
  simpl in Hj. rewrite Hj in Hin. rewrite (Hfail ev e Hin Hev). done.
Qed.

(** C9: the prompt of a request is its [system_prompt] (the empty
    string when there is none), a newline, and its [user_prompt]; for
    a valid request this is the text the batch handler puts in the
    prompt list at the request's position among the valid ones, and
    the text the single-chat handler calls the tokenizer on. *)
Theorem prompt_text_sent (w : World) (q : ChatRequest) :
  valid q →
  prompt_text q = default [] (system_prompt q) ++ newline ++ user_prompt q ∧
  (∀ (req : BatchedRequest) (i : nat),
     queries req !! i = Some q →
     ∃ prompts,
       tokenizer_calls (journal (generate_batch req (boot w)).2) = [Batch prompts] ∧
       prompts !! rank i (queries req) =
       Some (default [] (system_prompt q) ++ newline ++ user_prompt q)) ∧
  tokenizer_calls (journal (chat q (boot w)).2) =
  [Single (default [] (system_prompt q) ++ newline ++ user_prompt q)].
Proof.
  intros Hv.
  assert (prompt_text q = default [] (system_prompt q) ++ newline ++ user_prompt q) as Hp.
  { unfold prompt_text. by rewrite opt_or_default. }
  split_and!; [done| |].
  - intros req i Hi. pose proof (generate_batch_calls req w) as Hc. cbv zeta in Hc.
    pose proof (prompts_of_lookup _ _ _ Hi Hv) as Hl.
    destruct (prompts_of (queries req)) as [|p ps] eqn:Hps; [done|].
    destruct Hc as [Hc _]. eexists. split; [done|]. by rewrite <- Hp.
  - destruct (valid_nonempty q Hv) as [Hc Hu].
    rewrite chat_calls by done. by rewrite opt_or_default.
Qed.

(** C10: provided the engine answers every prompt list with one row
    per prompt, every object of the list the batch handler returns has
    a [chat_id] and exactly one of [response] and [error], and none is
    a temporary entry of the validation pass. *)
Theorem batch_results_well_formed (req : BatchedRequest) (s s' : machine)
    (resp : BatchedResponse) :
  one_output_per_prompt →
  generate_batch req s = (Ok resp, s') →
  Forall well_formed (body_responses resp).
Proof.
  intros Hone H.
  destruct (generate_batch_full req s s' resp Hone H) as (texts & Hlen & -> & _).
  by apply reassemble_well_formed.
Qed.

(** ** The reassembly loop, run to its end *)

(** When every row decodes and there are no more rows than recorded
    positions, the loop fills the positions in order and records one
    decoding per row. *)
Lemma replace_placeholders_run (qs : list ChatRequest) :
  ∀ (outputs : list Tensor) (used : list str) (s : machine) (texts : list str) (w3 : World),
    decode_each outputs (world s) = (Ok texts, w3) →
    length used + length outputs ≤ length (slots 0 qs) →
    replace_placeholders (slots 0 qs) (length used) outputs (reassemble 0 qs used) s =
    (Ok (reassemble 0 qs (used ++ texts)),
     {| world := w3;
        journal := journal s ++ ((λ o, Called (DecodeCall o) None) <$> outputs) |}).
Proof.
  induction outputs as [|o outputs IH]; intros used s texts w3 Hdec Hlen.
  - simpl in Hdec. injection Hdec as <- <-. simpl. rewrite !app_nil_r. by destruct s.
  - rewrite replace_placeholders_cons. simpl in Hdec, Hlen.
    destruct (tokenizer_decode o (world s)) as [[t|e] w1]; [|done].
    destruct (decode_each outputs w1) as [[ts|e] w2] eqn:Hts; [|done].
    injection Hdec as <- <-.
    rewrite store_response_slot by lia.
    replace (S (length used)) with (length (used ++ [t]))
      by (rewrite length_app; simpl; lia).
    rewrite (IH (used ++ [t]) _ ts w2); [|done|rewrite length_app; simpl; lia].
    simpl. by rewrite <- !app_assoc.
Qed.

(** With more rows than recorded positions, and rows that all decode,
    the loop runs past the end of [valid_indices]. *)
Lemma replace_placeholders_overflow (qs : list ChatRequest) :
  (∀ output w, failure_of (tokenizer_decode output w).1 = None) →
  ∀ (outputs : list Tensor) (used : list str) (s : machine),
    length used ≤ length (slots 0 qs) →
    length (slots 0 qs) < length used + length outputs →
    (replace_placeholders (slots 0 qs) (length used) outputs (reassemble 0 qs used) s).1
    = Raised IndexError.
Proof.
  intros Hdec. induction outputs as [|o outputs IH]; intros used s Hle Hlt.
  - simpl in Hlt. lia.
  - rewrite replace_placeholders_cons. specialize (Hdec o (world s)).
    destruct (tokenizer_decode o (world s)) as [[t|e] w1]; [|done].
    destruct (decide (length used < length (slots 0 qs))) as [Hin|Hout].
    + rewrite store_response_slot by done.
      replace (S (length used)) with (length (used ++ [t]))
        by (rewrite length_app; simpl; lia).
      apply IH; rewrite length_app; simpl in *; lia.
    + by rewrite store_response_overflow by lia.
Qed.

(** The batch handler on its success path, as one equation. *)
Lemma generate_batch_run (req : BatchedRequest) (s : machine)
    (inputs : Encoding) (w1 : World) (outputs : list Tensor) (w2 : World)
    (texts : list str) (w3 : World) :
  filter valid (queries req) ≠ [] →
  tokenizer_call (Batch (prompts_of (queries req))) (world s) = (Ok inputs, w1) →
  model_generate inputs w1 = (Ok outputs, w2) →
  decode_each outputs w2 = (Ok texts, w3) →
  length outputs ≤ length (filter valid (queries req)) →
  generate_batch req s =
  (Ok {| body_responses := reassemble 0 (queries req) texts |},
   {| world := w3;
      journal := journal s ++
        Called (TokenizerCall (Batch (prompts_of (queries req)))) None ::
        Called (GenerateCall inputs) None ::
        ((λ o, Called (DecodeCall o) None) <$> outputs) |}).
Proof.
  intros Hv H1 H2 H3 Hlen.
  assert (queries req ≠ []) as Hne by (intros E; by rewrite E in Hv).
  rewrite generate_batch_unfold by done. cbv zeta.
  pose proof (length_prompts_of (queries req)) as Hps.
  destruct (prompts_of (queries req)) as [|p ps] eqn:Eps.
  { destruct (filter valid (queries req)); done. }
  rewrite H1, H2. rewrite <- reassemble_nil.
  rewrite (replace_placeholders_run (queries req) outputs [] _ texts w3);
    [|done|simpl; rewrite length_slots; lia].
  simpl. by rewrite <- !app_assoc.
Qed.

(** ** Further properties of the batch handler *)

(** On the success path the handler returns the reassembled list, leaves
    the engine in the state after the last decoding, and has made one
    tokenizer call, one generation call and one decoding per generated
    row, in the order of the rows. *)
Theorem batch_success_path (req : BatchedRequest) (s : machine)
    (inputs : Encoding) (w1 : World) (outputs : list Tensor) (w2 : World)
    (texts : list str) (w3 : World) :
  filter valid (queries req) ≠ [] →
  tokenizer_call (Batch (prompt_text <$> filter valid (queries req))) (world s)
    = (Ok inputs, w1) →
  model_generate inputs w1 = (Ok outputs, w2) →
  decode_each outputs w2 = (Ok texts, w3) →
  length outputs ≤ length (filter valid (queries req)) →
  (generate_batch req s).1 = Ok {| body_responses := reassemble 0 (queries req) texts |} ∧
  world (generate_batch req s).2 = w3 ∧
  journal (generate_batch req s).2 =
    journal s ++
    Called (TokenizerCall (Batch (prompt_text <$> filter valid (queries req)))) None ::
    Called (GenerateCall inputs) None ::
    ((λ o, Called (DecodeCall o) None) <$> outputs).
Proof.
  intros Hv H1 H2 H3 Hlen.
  by rewrite (generate_batch_run req s inputs w1 outputs w2 texts w3).
Qed.

(** When the model returns more rows than there are valid requests, the
    handler never returns: the loop indexes [valid_indices] out of
    range, and when the rows decode the answer is the 500 error made
    from that [IndexError]. *)
Theorem batch_surplus_rows (req : BatchedRequest) (s : machine)
    (inputs : Encoding) (w1 : World) (outputs : list Tensor) (w2 : World) :
  filter valid (queries req) ≠ [] →
  tokenizer_call (Batch (prompt_text <$> filter valid (queries req))) (world s)
    = (Ok inputs, w1) →
  model_generate inputs w1 = (Ok outputs, w2) →
  length (filter valid (queries req)) < length outputs →
  (∀ resp s', generate_batch req s ≠ (Ok resp, s')) ∧
  ((∀ output w, failure_of (tokenizer_decode output w).1 = None) →
   (generate_batch req s).1 = Raised (HTTPException 500 (StrOf IndexError))).
Proof.
  intros Hv H1 H2 Hlt. fold (prompts_of (queries req)) in H1. split.
  - intros resp s' H. apply generate_batch_ok in H as [_ [(Hps & _)|(_ & H)]].
    + apply (f_equal length) in Hps. rewrite length_prompts_of in Hps.
      destruct (filter valid (queries req)); done.
    + destruct H as (inputs' & w1' & outputs' & w2' & texts & H1' & H2' & _ & Hle & _).
      rewrite H1 in H1'. injection H1' as <- <-.
      rewrite H2 in H2'. injection H2' as <- <-.
      rewrite length_prompts_of in Hle. lia.
  - intros Hdec.
    assert (queries req ≠ []) as Hne by (intros E; by rewrite E in Hv).
    rewrite generate_batch_unfold by done. cbv zeta.
    pose proof (length_prompts_of (queries req)) as Hps.
    destruct (prompts_of (queries req)) as [|p ps] eqn:Eps.
    { destruct (filter valid (queries req)); done. }
    rewrite H1, H2. rewrite <- reassemble_nil.
    match goal with |- context [replace_placeholders ?a ?b ?c ?d ?m] =>
      pose proof (replace_placeholders_overflow (queries req) Hdec outputs [] m) as Hov;
      destruct (replace_placeholders a b c d m) as [r s3] eqn:Hloop end.
    simpl in Hov. rewrite Hloop in Hov. simpl in Hov.
    rewrite Hov; [done|lia|rewrite length_slots; lia].
Qed.

(** When the model returns fewer rows than there are valid requests and
    the handler returns, the valid requests served by a row have their
    success result and every later valid request is answered with the
    temporary entry of the validation pass. *)
Theorem batch_missing_rows (req : BatchedRequest) (s s' : machine)
    (resp : BatchedResponse) (inputs : Encoding) (w1 : World)
    (outputs : list Tensor) (w2 : World) (i : nat) (q : ChatRequest) :
  generate_batch req s = (Ok resp, s') →
  tokenizer_call (Batch (prompt_text <$> filter valid (queries req))) (world s)
    = (Ok inputs, w1) →
  model_generate inputs w1 = (Ok outputs, w2) →
  queries req !! i = Some q → valid q →
  (rank i (queries req) < length outputs →
   ∃ text, body_responses resp !! i = Some (response_dict (VStr (chat_id q)) text)) ∧
  (length outputs ≤ rank i (queries req) →
   body_responses resp !! i = Some (placeholder_dict (chat_id q))).
Proof.
  intros H H1 H2 Hi Hv. fold (prompts_of (queries req)) in H1.
  pose proof (prompts_of_lookup _ _ _ Hi Hv) as Hp.
  apply generate_batch_ok in H as [_ [(Hps & _)|(_ & H)]];
    [by rewrite Hps in Hp|].
  destruct H as (inputs' & w1' & outputs' & w2' & texts & H1' & H2' & H3 & _ & ->).
  rewrite H1 in H1'. injection H1' as <- <-.
  rewrite H2 in H2'. injection H2' as <- <-.
  apply decode_each_length in H3.
  rewrite (reassemble_lookup _ 0 texts i q Hi). simpl.
  apply (validation_error_valid i) in Hv. rewrite Hv. split.
  - intros Hlt. rewrite <- H3 in Hlt.
    apply lookup_lt_is_Some_2 in Hlt as [t Ht]. rewrite Ht. by exists t.
  - intros Hge. rewrite <- H3 in Hge. by rewrite lookup_ge_None_2.
Qed.


Lemma query_name_nonempty (i : nat) : query_name i ≠ [].
Proof. unfold query_name. done. Qed.

(** Whatever the engine does, every object of a returned list carries a
    non-empty [chat_id]: the request's own when it is not the empty
    string, and the name made from its position otherwise. *)
Theorem batch_chat_id_kept (req : BatchedRequest) (s s' : machine)
    (resp : BatchedResponse) (i : nat) (q : ChatRequest) :
  generate_batch req s = (Ok resp, s') →
  queries req !! i = Some q →
  ∃ d, body_responses resp !! i = Some d ∧
       d !! "chat_id" =
         Some (VStr (match chat_id q with [] => query_name i | _ :: _ => chat_id q end)) ∧
       (match chat_id q with [] => query_name i | _ :: _ => chat_id q end) ≠ [].
Proof.
  intros H Hi.
  assert (∃ texts, body_responses resp = reassemble 0 (queries req) texts) as [texts ->].
  { apply generate_batch_ok in H as [_ [(_ & _ & ->)|(_ & H)]]; [by eexists|].
    destruct H as (? & ? & ? & ? & texts & _ & _ & _ & _ & ->). by eexists. }
  rewrite (reassemble_lookup _ 0 texts i q Hi). simpl.
  eexists. split; [done|]. split.
  - unfold validation_error.
    destruct (decide (blank (chat_id q))) as [Hc|Hc].
    + apply error_dict_keys.
    + assert (chat_id q ≠ []) as Hne by (intros E; apply Hc; by rewrite E).
      destruct (chat_id q) as [|c cs] eqn:E; [done|].
      destruct (decide (blank (user_prompt q))); [apply error_dict_keys|].
      destruct (texts !! rank i (queries req));
        [apply response_dict_keys|apply placeholder_dict_keys].
  - destruct (chat_id q); [apply query_name_nonempty|done].
Qed.

(** ** Further properties of the validation pass *)

Lemma rank_mono (qs : list ChatRequest) :
  ∀ p p', p ≤ p' → rank p qs ≤ rank p' qs.
Proof.
  induction qs as [|a qs IH]; intros p p' Hle.
  - unfold rank. by rewrite !take_nil.
  - destruct p as [|p]; [unfold rank at 1; simpl; lia|].
    destruct p' as [|p']; [lia|]. rewrite !rank_cons.
    specialize (IH p p' ltac:(lia)). destruct (decide (valid a)); lia.
Qed.

Lemma slots_lookup (qs : list ChatRequest) :
  ∀ j p, slots 0 qs !! j = Some p →
         ∃ q, qs !! p = Some q ∧ valid q ∧ rank p qs = j.
Proof.
  induction qs as [|a qs IH]; intros j p Hj; simpl in Hj; [done|].
  rewrite slots_succ in Hj.
  destruct (decide (valid a)) as [Hv|Hv].
  - destruct j as [|j]; simpl in Hj.
    + injection Hj as <-. by exists a.
    + rewrite list_lookup_fmap in Hj.
      destruct (slots 0 qs !! j) as [p'|] eqn:Hp'; [|done]. injection Hj as <-.
      destruct (IH j p' Hp') as (q & Hq & Hvq & Hr). exists q.
      rewrite rank_cons, decide_True by done. by rewrite Hr.
  - rewrite list_lookup_fmap in Hj.
    destruct (slots 0 qs !! j) as [p'|] eqn:Hp'; [|done]. injection Hj as <-.
    destruct (IH j p' Hp') as (q & Hq & Hvq & Hr). exists q.
    rewrite rank_cons, decide_False by done. done.
Qed.

Lemma slots_rank (qs : list ChatRequest) :
  ∀ p q, qs !! p = Some q → valid q → slots 0 qs !! rank p qs = Some p.
Proof.
  induction qs as [|a qs IH]; intros p q Hp Hv; [done|].
  simpl. rewrite slots_succ. destruct p as [|p]; simpl in Hp.
  - injection Hp as ->. by rewrite decide_True.
  - rewrite rank_cons. specialize (IH p q Hp Hv).
    destruct (decide (valid a)); simpl; by rewrite list_lookup_fmap, IH.
Qed.

(** The three lists of the validation pass fit together: one entry per
    request; one prompt per recorded position; every recorded position
    is that of a valid request, holds its temporary entry, and matches
    the prompt with the same number; the recorded positions increase;
    and every valid request has its position recorded. *)
Theorem first_pass_consistent (qs : list ChatRequest) :
  let st := first_pass 0 qs empty_pass in
  length (responses st) = length qs ∧
  length (valid_prompts st) = length (valid_indices st) ∧
  (∀ j p, valid_indices st !! j = Some p →
          ∃ q, qs !! p = Some q ∧ valid q ∧
               responses st !! p = Some (placeholder_dict (chat_id q)) ∧
               valid_prompts st !! j = Some (prompt_text q)) ∧
  (∀ j1 j2 p1 p2, j1 < j2 →
                  valid_indices st !! j1 = Some p1 →
                  valid_indices st !! j2 = Some p2 → p1 < p2) ∧
  (∀ p q, qs !! p = Some q → valid q → p ∈ valid_indices st).
Proof.
  cbv zeta. rewrite first_pass_start. simpl. split_and!.
  - apply length_pending.
  - by rewrite length_prompts_of, length_slots.
  - intros j p Hj. destruct (slots_lookup qs j p Hj) as (q & Hq & Hv & Hr).
    exists q. split_and!; [done|done| |].
    + rewrite (pending_lookup qs p q Hq). unfold first_entry.
      apply (validation_error_valid p) in Hv. by rewrite Hv.
    + rewrite <- Hr. by apply prompts_of_lookup.
  - intros j1 j2 p1 p2 Hlt H1 H2.
    destruct (slots_lookup qs j1 p1 H1) as (_ & _ & _ & Hr1).
    destruct (slots_lookup qs j2 p2 H2) as (_ & _ & _ & Hr2).
    destruct (decide (p1 < p2)) as [|Hge]; [done|].
    pose proof (rank_mono qs p2 p1 ltac:(lia)). lia.
  - intros p q Hp Hv. apply list_elem_of_lookup. exists (rank p qs).
    by eapply slots_rank.
Qed.

Lemma lstrip_nil (s : str) : lstrip s = [] ↔ forallb isspace s = true.
Proof.
  induction s as [|c s IH]; simpl; [done|].
  destruct (isspace c); simpl; [done|]. split; intros; done.
Qed.

Lemma lstrip_head (s : str) (c : N) (t : str) :
  lstrip s = c :: t → isspace c = false.
Proof.
  induction s as [|a s IH]; simpl; [done|].
  destruct (isspace a) eqn:Ha; [done|]. by intros [= <- <-].
Qed.

Lemma forallb_rev (f : N → bool) (s : str) : forallb f (rev s) = forallb f s.
Proof.
  induction s as [|c s IH]; simpl; [done|].
  rewrite forallb_app, IH. simpl. rewrite andb_true_r. apply andb_comm.
Qed.

(** A field is blank exactly when all its characters are white space. *)
Lemma blank_spaces (s : str) : blank s ↔ forallb isspace s = true.
Proof.
  unfold blank, strip, rstrip. split.
  - intros H. apply (f_equal (@rev N)) in H. rewrite rev_involutive in H. simpl in H.
    apply lstrip_nil in H. rewrite forallb_rev in H.
    destruct (lstrip s) as [|c t] eqn:E; [by apply lstrip_nil|].
    apply lstrip_head in E. simpl in H. by rewrite E in H.
  - intros H. apply lstrip_nil in H. by rewrite H.
Qed.

Lemma some_not_space (s : str) :
  forallb isspace s ≠ true ↔ ∃ c, c ∈ s ∧ isspace c = false.
Proof.
  induction s as [|a s IH]; simpl.
  - split; [done|]. intros (c & Hin & _). by apply elem_of_nil in Hin.
  - destruct (isspace a) eqn:Ha; simpl.
    + rewrite IH. split.
      * intros (c & Hin & Hc). exists c. split; [by right|done].
      * intros (c & Hin & Hc). apply elem_of_cons in Hin as [->|Hin]; [congruence|].
        by exists c.
    + split; [|done]. intros _. exists a. split; [by left|done].
Qed.

(** The test of the validation pass holds exactly for the strings made
    of white space only, the empty string among them; so a request is
    valid exactly when its [chat_id] and its [user_prompt] each hold a
    character that is not white space. *)
Theorem blank_test_is_all_spaces (q : ChatRequest) :
  (∀ s, negb (truthy s) || str_eqb (strip s) empty_string = forallb isspace s) ∧
  (valid q ↔ (∃ c, c ∈ chat_id q ∧ isspace c = false) ∧
             (∃ c, c ∈ user_prompt q ∧ isspace c = false)).
Proof.
  assert (∀ s, ¬ blank s ↔ ∃ c, c ∈ s ∧ isspace c = false) as Hnb.
  { intros s. rewrite blank_spaces. apply some_not_space. }
  split.
  - intros s. rewrite blank_check.
    destruct (forallb isspace s) eqn:E.
    + by apply bool_decide_eq_true_2, blank_spaces.
    + apply bool_decide_eq_false_2. rewrite blank_spaces. by rewrite E.
  - unfold valid. by rewrite !Hnb.
Qed.

Lemma lit_inj (s : string) : ∀ t, lit s = lit t → s = t.
Proof.
  unfold lit. induction s as [|a s IH]; intros [|b t]; simpl; try done.
  intros [= Hab Hst]. f_equal; [|by apply IH].
  apply (f_equal ascii_of_N) in Hab. by rewrite !ascii_N_embedding in Hab.
Qed.

(** The names made for the positions are pairwise different, and none
    of them is blank. *)
Theorem query_name_distinct (i j : nat) :
  (query_name i = query_name j → i = j) ∧ ¬ blank (query_name i).
Proof.
  split.
  - unfold query_name, str_of_nat. intros H. apply app_inv_head in H.
    apply lit_inj in H.
    apply (f_equal NilEmpty.uint_of_string) in H. rewrite !NilEmpty.usu in H.
    injection H as H. by apply DecimalNat.Unsigned.to_uint_inj.
  - rewrite blank_spaces. unfold query_name. simpl. done.
Qed.

Lemma filter_valid_idem (qs : list ChatRequest) :
  filter valid (filter valid qs) = filter valid qs.
Proof.
  induction qs as [|a qs IH]; [done|]. rewrite filter_cons.
  destruct (decide (valid a)); [|done]. by rewrite filter_cons, decide_True, IH.
Qed.

Lemma filter_valid_lookup (qs : list ChatRequest) :
  ∀ i q, qs !! i = Some q → valid q → filter valid qs !! rank i qs = Some q.
Proof.
  induction qs as [|a qs IH]; intros i q Hi Hv; [done|].
  rewrite filter_cons. destruct i as [|i]; simpl in Hi.
  - injection Hi as ->. by rewrite decide_True.
  - rewrite rank_cons. destruct (decide (valid a)); simpl; by apply IH.
Qed.

Lemma rank_filter_valid (qs : list ChatRequest) :
  ∀ k, k ≤ length (filter valid qs) → rank k (filter valid qs) = k.
Proof.
  intros k Hk. unfold rank.
  assert (∀ l : list ChatRequest, Forall valid l → filter valid l = l) as Hall.
  { induction 1 as [|a l Ha _ IH]; [done|]. by rewrite filter_cons, decide_True, IH. }
  rewrite Hall.
  - rewrite length_take. lia.
  - apply Forall_take. apply Forall_forall. intros q Hq.
    by apply list_elem_of_filter in Hq as [? _].
Qed.

(** Dropping the invalid requests from a batch changes nothing for the
    others: the handler returns from the same state to the same state,
    with the same journal, and every valid request finds the same
    result at its position among the valid ones. *)
Theorem batch_invalid_items_isolated (req : BatchedRequest) (s s' : machine)
    (resp : BatchedResponse) :
  generate_batch req s = (Ok resp, s') →
  filter valid (queries req) ≠ [] →
  ∃ resp',
    generate_batch {| queries := filter valid (queries req) |} s = (Ok resp', s') ∧
    ∀ i q, queries req !! i = Some q → valid q →
           body_responses resp' !! rank i (queries req) = body_responses resp !! i.
Proof.
  intros H Hv. pose proof H as H0.
  apply generate_batch_ok in H as [_ [(Hps & _)|(_ & H)]].
  { apply (f_equal length) in Hps. rewrite length_prompts_of in Hps.
    destruct (filter valid (queries req)); done. }
  destruct H as (inputs & w1 & outputs & w2 & texts & H1 & H2 & H3 & Hle & Hr).
  rewrite length_prompts_of in Hle.
  rewrite (generate_batch_run req s inputs w1 outputs w2 texts (world s')) in H0 by done.
  injection H0 as _ <-.
  eexists. split.
  - rewrite (generate_batch_run _ s inputs w1 outputs w2 texts (world s')); simpl;
      unfold prompts_of; rewrite ?filter_valid_idem; done.
  - intros i q Hi Hq. rewrite Hr. simpl.
    pose proof (filter_valid_lookup _ _ _ Hi Hq) as Hf.
    rewrite (reassemble_lookup _ 0 texts _ q Hf), (reassemble_lookup _ 0 texts i q Hi).
    simpl. rewrite rank_filter_valid by (apply lookup_lt_Some in Hf; lia).
    apply (validation_error_valid i) in Hq as Hn. rewrite Hn.
    apply (validation_error_valid (rank i (queries req))) in Hq. by rewrite Hq.
Qed.

(** ** The single-chat handler *)

Lemma chat_unfold (req : ChatRequest) (s : machine) :
  chat_id req ≠ [] → user_prompt req ≠ [] →
  chat req s =
  let c1 := TokenizerCall (Single (prompt_text req)) in
  match tokenizer_call (Single (prompt_text req)) (world s) with
  | (Ok inputs, w1) =>
      let s1 := record c1 None w1 s in
      match model_generate inputs w1 with
      | (Ok outputs, w2) =>
          let s2 := record (GenerateCall inputs) None w2 s1 in
          match outputs with
          | [] => (Raised (internal_error IndexError), s2)
          | o :: _ =>
              match tokenizer_decode o w2 with
              | (Ok text, w3) =>
                  (Ok (response_dict (VStr (chat_id req)) text),
                   record (DecodeCall o) None w3 s2)
              | (Raised e, w3) =>
                  (Raised (internal_error e), record (DecodeCall o) (Some e) w3 s2)
              end
          end
      | (Raised e, w2) =>
          (Raised (internal_error e), record (GenerateCall inputs) (Some e) w2 s1)
      end
  | (Raised e, w1) => (Raised (internal_error e), record c1 (Some e) w1 s)
  end.
Proof.
  intros Hc Hu. unfold chat, try_except, prompt_text.
  destruct (chat_id req) as [|c cs]; [done|].
  destruct (user_prompt req) as [|u us] eqn:Hup; [done|].
  cbn [truthy negb orb]. cbv zeta.
  unfold bind at 1. unfold tokenizer, external at 1.
  destruct (tokenizer_call _ (world s)) as [[inputs|e] w1]; [|done].
  unfold bind at 1. unfold generate, external at 1. cbn [world journal].
  destruct (model_generate inputs w1) as [[outputs|e] w2]; [|done].
  unfold bind at 1. unfold lift at 1.
  destruct outputs as [|o outputs]; [done|]. cbn [list_getitem lookup list_lookup].
  unfold bind at 1. unfold decode, external at 1. cbn [world journal].
  by destruct (tokenizer_decode o w2) as [[t|e] w3].
Qed.

(** When the tokenizer, the model and the decoding of the first row
    return, the handler returns the request's [chat_id] with the text of
    that row; later rows are not looked at, and exactly three calls are
    made. *)
Theorem chat_success_path (req : ChatRequest) (s : machine)
    (inputs : Encoding) (w1 : World) (o : Tensor) (rows : list Tensor) (w2 : World)
    (text : str) (w3 : World) :
  chat_id req ≠ [] → user_prompt req ≠ [] →
  tokenizer_call (Single (prompt_text req)) (world s) = (Ok inputs, w1) →
  model_generate inputs w1 = (Ok (o :: rows), w2) →
  tokenizer_decode o w2 = (Ok text, w3) →
  chat req s =
  (Ok (response_dict (VStr (chat_id req)) text),
   {| world := w3;
      journal := journal s ++
        [ Called (TokenizerCall (Single (prompt_text req))) None;
          Called (GenerateCall inputs) None;
          Called (DecodeCall o) None ] |}).
Proof.
  intros Hc Hu H1 H2 H3. rewrite chat_unfold by done. cbv zeta.
  rewrite H1, H2, H3. unfold record. simpl. by rewrite <- !app_assoc.
Qed.

(** When the model returns no row, the handler indexes the empty output
    and answers with the 500 error made from the [IndexError]; nothing
    is decoded. *)
Theorem chat_no_rows (req : ChatRequest) (s : machine) (inputs : Encoding) (w1 w2 : World) :
  chat_id req ≠ [] → user_prompt req ≠ [] →
  tokenizer_call (Single (prompt_text req)) (world s) = (Ok inputs, w1) →
  model_generate inputs w1 = (Ok [], w2) →
  chat req s =
  (Raised (HTTPException 500 (StrOf IndexError)),
   {| world := w2;
      journal := journal s ++
        [ Called (TokenizerCall (Single (prompt_text req))) None;
          Called (GenerateCall inputs) None ] |}).
Proof.
  intros Hc Hu H1 H2. rewrite chat_unfold by done. cbv zeta.
  rewrite H1, H2. unfold record. simpl. by rewrite <- !app_assoc.
Qed.

(** The journal of the single-chat handler, for any engine. *)
Lemma chat_journal (req : ChatRequest) (s : machine) :
  ∃ evs,
    journal (chat req s).2 = journal s ++ evs ∧
    length evs ≤ 3 ∧
    length (tokenizer_calls evs) ≤ 1 ∧
    length (generate_calls evs) ≤ 1 ∧
    (evs = [] ↔ chat_id req = [] ∨ user_prompt req = []) ∧
    (∀ ev e, ev ∈ evs → failure ev = Some e →
             (chat req s).1 = Raised (internal_error e)).
Proof.
  destruct (decide (chat_id req = [] ∨ user_prompt req = [])) as [Hemp|Hne].
  - rewrite chat_rejected by done. exists []. simpl. rewrite app_nil_r.
    split_and!; [done|lia|lia|lia|done|].
    intros ev e Hin. by apply elem_of_nil in Hin.
  - assert (chat_id req ≠ [] ∧ user_prompt req ≠ []) as [Hc Hu].
    { split; intros E; apply Hne; [by left|by right]. }
    rewrite chat_unfold by done. cbv zeta.
    destruct (tokenizer_call _ (world s)) as [[inputs|e] w1].
    2:{ eexists. split; [done|]. simpl. split_and!; [lia|lia|lia| |].
        - split; [done|]. by intros ?.
        - intros ev e' Hin Hev. apply list_elem_of_singleton in Hin as ->.
          simpl in Hev. by injection Hev as ->. }
    destruct (model_generate inputs w1) as [[outputs|e] w2].
    2:{ eexists. simpl. rewrite <- app_assoc. split; [done|].
        simpl. split_and!; [lia|lia|lia| |].
        - split; [done|]. by intros ?.
        - intros ev e' Hin Hev.
          apply elem_of_cons in Hin as [->|Hin]; [done|].
          apply list_elem_of_singleton in Hin as ->.
          simpl in Hev. by injection Hev as ->. }
    destruct outputs as [|o outputs].
    { eexists. simpl. rewrite <- app_assoc. split; [done|].
      simpl. split_and!; [lia|lia|lia| |].
      - split; [done|]. by intros ?.
      - intros ev e' Hin Hev.
        apply elem_of_cons in Hin as [->|Hin]; [done|].
        by apply list_elem_of_singleton in Hin as ->. }
    destruct (tokenizer_decode o w2) as [[t|e] w3];
      (eexists; simpl; rewrite <- !app_assoc; split; [done|];
       simpl; split_and!; [lia|lia|lia| |]).
    + split; [done|]. by intros ?.
    + intros ev e' Hin Hev.
      apply elem_of_cons in Hin as [->|Hin]; [done|].
      apply elem_of_cons in Hin as [->|Hin]; [done|].
      by apply list_elem_of_singleton in Hin as ->.
    + split; [done|]. by intros ?.
    + intros ev e' Hin Hev.
      apply elem_of_cons in Hin as [->|Hin]; [done|].
      apply elem_of_cons in Hin as [->|Hin]; [done|].
      apply list_elem_of_singleton in Hin as ->.
      simpl in Hev. by injection Hev as ->.
Qed.

(** When a call into the engine raises during the single-chat handler,
    the answer is the 500 error made from that exception. *)
Theorem chat_engine_failure (req : ChatRequest) (w : World) (ev : event) (e : exn) :
  ev ∈ journal (chat req (boot w)).2 →
  failure ev = Some e →
  (chat req (boot w)).1 = Raised (HTTPException 500 (StrOf e)) ∧
  status_of (chat req (boot w)).1 = 500%Z.
Proof.
  intros Hin Hev.
  destruct (chat_journal req (boot w)) as (evs & Hj & _ & _ & _ & _ & Hfail).
  simpl in Hj. rewrite Hj in Hin. by rewrite (Hfail ev e Hin Hev).
Qed.

(** The single-chat handler turns a request away before any call into
    the engine exactly when its [chat_id] or its [user_prompt] is the
    empty string; nothing is trimmed.  In all it makes at most three
    calls, at most one to the tokenizer and at most one to the model. *)
Theorem chat_calls_bounded (req : ChatRequest) (w : World) :
  (journal (chat req (boot w)).2 = [] ↔ chat_id req = [] ∨ user_prompt req = []) ∧
  length (journal (chat req (boot w)).2) ≤ 3 ∧
  length (tokenizer_calls (journal (chat req (boot w)).2)) ≤ 1 ∧
  length (generate_calls (journal (chat req (boot w)).2)) ≤ 1.
Proof.
  destruct (chat_journal req (boot w)) as (evs & Hj & H3 & Ht & Hg & Hemp & _).
  simpl in Hj. by rewrite Hj.
Qed.


End Handlers.

Arguments boot {Encoding Tensor World} w.
Arguments journal {Encoding Tensor World} m.
Arguments world {Encoding Tensor World} m.
Arguments Called {Encoding Tensor} call failure.
Arguments failure {Encoding Tensor} e.
Arguments TokenizerCall {Encoding Tensor} text.
Arguments GenerateCall {Encoding Tensor} inputs.
Arguments DecodeCall {Encoding Tensor} output.
Arguments call {Encoding Tensor} e.
Arguments generate_batch {Encoding Tensor World}
  tokenizer_call model_generate tokenizer_decode req _.
Arguments chat {Encoding Tensor World}
  tokenizer_call model_generate tokenizer_decode req _.
Arguments one_output_per_prompt {Encoding Tensor World} tokenizer_call model_generate.
Arguments engine_never_raises {Encoding Tensor World}
  tokenizer_call model_generate tokenizer_decode.
Arguments tokenizer_calls {Encoding Tensor} evs.
Arguments generate_calls {Encoding Tensor} evs.
Arguments is_decode_call {Encoding Tensor} ev.
Arguments decode_each {Tensor World} tokenizer_decode outputs w.

(** ** The handlers on the sample requests *)

Local Abbreviation echo_batch :=
  (generate_batch echo_tokenizer echo_generate echo_decode).
Local Abbreviation echo_chat :=
  (chat echo_tokenizer echo_generate echo_decode).
Local Abbreviation failing_batch :=
  (generate_batch echo_tokenizer failing_generate echo_decode).
Local Abbreviation start := (boot (Encoding := list str) (Tensor := str) tt).

Example first_pass_demo :
  first_pass 0
    [ {| chat_id := empty_string; system_prompt := None; user_prompt := lit "hi" |};
      {| chat_id := lit "b"; system_prompt := Some (lit "sys"); user_prompt := lit "hi" |};
      {| chat_id := lit "  "; system_prompt := None; user_prompt := lit "x" |} ]
    empty_pass
  = {| responses := [ error_dict (lit "query_0") chat_id_required;
                      placeholder_dict (lit "b");
                      error_dict (lit "  ") chat_id_required ];
       valid_prompts := [ lit "sys" ++ newline ++ lit "hi" ];
       valid_indices := [1] |}.
Proof. vm_compute. reflexivity. Qed.

Example str_of_nat_demo : str_of_nat 0 = lit "0" ∧ str_of_nat 120 = lit "120".
Proof. split; reflexivity. Qed.

Example strip_demo :
  strip (lit "  a b ") = lit "a b" ∧ strip [0x3000%N; 0x09%N] = [] ∧ strip empty_string = [].
Proof. split_and!; reflexivity. Qed.

Example echo_batch_mixed :
  (echo_batch mixed_requests start).1 = Ok mixed_response.
Proof. vm_compute. reflexivity. Qed.

Example echo_batch_mixed_journal :
  journal (echo_batch mixed_requests start).2 =
  [ Called (TokenizerCall (Batch [prompt_text request_a; prompt_text request_c])) None;
    Called (GenerateCall [prompt_text request_a; prompt_text request_c]) None;
    Called (DecodeCall (lit "echo:" ++ prompt_text request_a)) None;
    Called (DecodeCall (lit "echo:" ++ prompt_text request_c)) None ].
Proof. vm_compute. reflexivity. Qed.

Lemma echo_one_output_per_prompt :
  one_output_per_prompt echo_tokenizer echo_generate.
Proof.
  intros prompts w inputs w1 outputs w2 H1 H2.
  unfold echo_tokenizer in H1. unfold echo_generate in H2.
  injection H1 as <- <-. injection H2 as <- <-. apply length_fmap.
Qed.

Lemma echo_never_raises :
  engine_never_raises echo_tokenizer echo_generate echo_decode.
Proof. by split_and!. Qed.

Lemma request_a_valid : valid request_a.
Proof. split; intros H; discriminate H. Qed.

Lemma batch_results_follow_requests_witness :
  one_output_per_prompt echo_tokenizer echo_generate ∧
  echo_batch mixed_requests start =
    (Ok mixed_response, (echo_batch mixed_requests start).2) ∧
  queries mixed_requests !! 1 = Some request_a ∧
  ∃ d, body_responses mixed_response !! 1 = Some d ∧
       (is_success d ↔ valid request_a) ∧
       (is_error d ↔ ¬ valid request_a) ∧
       (¬ valid request_a → validation_error 1 request_a = Some d) ∧
       (valid request_a →
        ∃ inputs w1 outputs w2 texts text,
          echo_tokenizer (Batch (prompt_text <$> filter valid (queries mixed_requests)))
            (world start) = (Ok inputs, w1) ∧
          echo_generate inputs w1 = (Ok outputs, w2) ∧
          decode_each echo_decode outputs w2 =
            (Ok texts, world (echo_batch mixed_requests start).2) ∧
          (prompt_text <$> filter valid (queries mixed_requests))
            !! rank 1 (queries mixed_requests) = Some (prompt_text request_a) ∧
          texts !! rank 1 (queries mixed_requests) = Some text ∧
          d = response_dict (VStr (chat_id request_a)) text).
Proof.
  split; [exact echo_one_output_per_prompt|].
  split; [vm_compute; reflexivity|].
  split; [reflexivity|].
  apply (batch_results_follow_requests _ _ _ echo_tokenizer echo_generate echo_decode
           mixed_requests start (echo_batch mixed_requests start).2 mixed_response).
  - exact echo_one_output_per_prompt.
  - vm_compute; reflexivity.
  - reflexivity.
Defined.

Lemma batch_length_preserved_witness :
  queries mixed_requests ≠ [] ∧
  (∀ resp s', echo_batch mixed_requests start = (Ok resp, s') →
              length (body_responses resp) = length (queries mixed_requests)) ∧
  (engine_never_raises echo_tokenizer echo_generate echo_decode →
   one_output_per_prompt echo_tokenizer echo_generate →
   ∃ resp s', echo_batch mixed_requests start = (Ok resp, s') ∧
              length (body_responses resp) = length (queries mixed_requests)).
Proof.
  split; [discriminate|].
  apply (batch_length_preserved _ _ _ echo_tokenizer echo_generate echo_decode
           mixed_requests start).
  discriminate.
Defined.

Lemma validation_pass_errors_witness :
  (queries mixed_requests !! 0 = Some untitled_request ∧
   blank (chat_id untitled_request) ∧
   responses (first_pass 0 (queries mixed_requests) empty_pass) !! 0 =
   Some (error_dict (lit "query_0") "chat_id is required and cannot be empty")) ∧
  (queries mixed_requests !! 2 = Some blank_prompt_request ∧
   ¬ blank (chat_id blank_prompt_request) ∧
   blank (user_prompt blank_prompt_request) ∧
   responses (first_pass 0 (queries mixed_requests) empty_pass) !! 2 =
   Some (error_dict (lit "b") "user_prompt is required and cannot be empty")).
Proof.
  split.
  - split; [reflexivity|]. split; [reflexivity|].
    apply (proj1 (validation_pass_errors (queries mixed_requests) 0 untitled_request
                    eq_refl)).
    reflexivity.
  - split; [reflexivity|]. split; [discriminate|]. split; [reflexivity|].
    apply (proj2 (validation_pass_errors (queries mixed_requests) 2 blank_prompt_request
                    eq_refl)).
    + discriminate.
    + reflexivity.
Defined.

Lemma batch_calls_engine_once_witness :
  filter valid (queries mixed_requests) ≠ [] ∧
  let prompts := prompt_text <$> filter valid (queries mixed_requests) in
  let evs := journal (echo_batch mixed_requests start).2 in
  tokenizer_calls evs = [Batch prompts] ∧
  length prompts = length (filter valid (queries mixed_requests)) ∧
  length (generate_calls evs) ≤ 1 ∧
  (∀ inputs w1, echo_tokenizer (Batch prompts) tt = (Ok inputs, w1) →
                generate_calls evs = [inputs]) ∧
  (∀ e w1, echo_tokenizer (Batch prompts) tt = (Raised e, w1) →
           generate_calls evs = []) ∧
  Forall (λ ev, is_decode_call ev = true) (drop 2 evs).
Proof.
  assert (filter valid (queries mixed_requests) ≠ []) as Hne
    by (vm_compute; discriminate).
  split; [exact Hne|].
  exact (batch_calls_engine_once _ _ _ echo_tokenizer echo_generate echo_decode
           mixed_requests tt Hne).
Defined.

Lemma engine_failure_fails_whole_call_witness :
  let ev := Called (GenerateCall [prompt_text request_a; prompt_text request_c])
                   (Some (EngineError (lit "out of memory"))) in
  ev ∈ journal (failing_batch mixed_requests start).2 ∧
  failure ev = Some (EngineError (lit "out of memory")) ∧
  (failing_batch mixed_requests start).1 =
    Raised (HTTPException 500 (StrOf (EngineError (lit "out of memory")))) ∧
  status_of (failing_batch mixed_requests start).1 = 500%Z.
Proof.
  cbv zeta.
  assert (Called (GenerateCall [prompt_text request_a; prompt_text request_c])
                 (Some (EngineError (lit "out of memory")))
          ∈ journal (failing_batch mixed_requests start).2) as Hin.
  { vm_compute. apply list_elem_of_further, list_elem_of_here. }
  split; [exact Hin|]. split; [reflexivity|].
  exact (engine_failure_fails_whole_call _ _ _ echo_tokenizer failing_generate echo_decode
           mixed_requests tt _ _ Hin eq_refl).
Defined.

Lemma prompt_text_sent_witness :
  valid request_a ∧
  prompt_text request_a =
    default [] (system_prompt request_a) ++ newline ++ user_prompt request_a ∧
  (∀ (req : BatchedRequest) (i : nat),
     queries req !! i = Some request_a →
     ∃ prompts,
       tokenizer_calls (journal (echo_batch req start).2) = [Batch prompts] ∧
       prompts !! rank i (queries req) =
       Some (default [] (system_prompt request_a) ++ newline ++ user_prompt request_a)) ∧
  tokenizer_calls (journal (echo_chat request_a start).2) =
  [Single (default [] (system_prompt request_a) ++ newline ++ user_prompt request_a)].
Proof.
  split; [exact request_a_valid|].
  exact (prompt_text_sent _ _ _ echo_tokenizer echo_generate echo_decode tt request_a
           request_a_valid).
Defined.

Lemma batch_results_well_formed_witness :
  one_output_per_prompt echo_tokenizer echo_generate ∧
  echo_batch mixed_requests start =
    (Ok mixed_response, (echo_batch mixed_requests start).2) ∧
  Forall well_formed (body_responses mixed_response).
Proof.
  split; [exact echo_one_output_per_prompt|].
  split; [vm_compute; reflexivity|].
  apply (batch_results_well_formed _ _ _ echo_tokenizer echo_generate echo_decode
           mixed_requests start (echo_batch mixed_requests start).2 mixed_response).
  - exact echo_one_output_per_prompt.
  - vm_compute; reflexivity.
Defined.

Lemma invalid_requests_stay_local_witness :
  Forall (λ q, ¬ valid q) (queries invalid_requests) ∧
  queries invalid_requests ≠ [] ∧
  journal (echo_batch invalid_requests start).2 = [] ∧
  ∃ resp, echo_batch invalid_requests start = (Ok resp, start) ∧
          length (body_responses resp) = length (queries invalid_requests) ∧
          Forall is_error (body_responses resp).
Proof.
  assert (Forall (λ q, ¬ valid q) (queries invalid_requests)) as Hall.
  { repeat constructor; intros [Hc Hu]; [by apply Hc|by apply Hu]. }
  assert (queries invalid_requests ≠ []) as Hne by discriminate.
  split; [exact Hall|]. split; [exact Hne|].
  destruct (proj2 (proj2 (invalid_requests_stay_local _ _ _
              echo_tokenizer echo_generate echo_decode invalid_requests tt)) Hall)
    as [Hj Hr].
  split; [exact Hj|exact (Hr Hne)].
Defined.

(** ** Further runs on the sample requests *)

Local Abbreviation doubling_batch :=
  (generate_batch echo_tokenizer doubling_generate echo_decode).
Local Abbreviation short_batch :=
  (generate_batch echo_tokenizer first_row_generate echo_decode).
Local Abbreviation silent_chat :=
  (chat echo_tokenizer silent_generate echo_decode).
Local Abbreviation failing_chat :=
  (chat echo_tokenizer failing_generate echo_decode).
Local Abbreviation mixed_prompts := [prompt_text request_a; prompt_text request_c].

Lemma mixed_requests_some_valid : filter valid (queries mixed_requests) ≠ [].
Proof. vm_compute. discriminate. Qed.

Lemma batch_success_path_witness :
  filter valid (queries mixed_requests) ≠ [] ∧
  echo_tokenizer (Batch (prompt_text <$> filter valid (queries mixed_requests))) tt
    = (Ok mixed_prompts, tt) ∧
  echo_generate mixed_prompts tt = (Ok ((λ p, lit "echo:" ++ p) <$> mixed_prompts), tt) ∧
  decode_each echo_decode ((λ p, lit "echo:" ++ p) <$> mixed_prompts) tt
    = (Ok ((λ p, lit "echo:" ++ p) <$> mixed_prompts), tt) ∧
  length ((λ p : str, lit "echo:" ++ p) <$> mixed_prompts)
    ≤ length (filter valid (queries mixed_requests)) ∧
  (echo_batch mixed_requests start).1 =
    Ok {| body_responses :=
            reassemble 0 (queries mixed_requests) ((λ p, lit "echo:" ++ p) <$> mixed_prompts) |} ∧
  world (echo_batch mixed_requests start).2 = tt ∧
  journal (echo_batch mixed_requests start).2 =
    journal start ++
    Called (TokenizerCall (Batch (prompt_text <$> filter valid (queries mixed_requests)))) None ::
    Called (GenerateCall mixed_prompts) None ::
    ((λ o, Called (DecodeCall o) None) <$> ((λ p, lit "echo:" ++ p) <$> mixed_prompts)).
Proof.
  split; [exact mixed_requests_some_valid|].
  split; [reflexivity|]. split; [reflexivity|]. split; [reflexivity|].
  split; [vm_compute; lia|].
  apply (batch_success_path _ _ _ echo_tokenizer echo_generate echo_decode
           mixed_requests start mixed_prompts tt
           ((λ p, lit "echo:" ++ p) <$> mixed_prompts) tt
           ((λ p, lit "echo:" ++ p) <$> mixed_prompts) tt).
  - exact mixed_requests_some_valid.
  - reflexivity.
  - reflexivity.
  - reflexivity.
  - vm_compute; lia.
Defined.

Lemma batch_surplus_rows_witness :
  filter valid (queries mixed_requests) ≠ [] ∧
  echo_tokenizer (Batch (prompt_text <$> filter valid (queries mixed_requests))) tt
    = (Ok mixed_prompts, tt) ∧
  doubling_generate mixed_prompts tt = (Ok (mixed_prompts ++ mixed_prompts), tt) ∧
  length (filter valid (queries mixed_requests)) < length (mixed_prompts ++ mixed_prompts) ∧
  (∀ resp s', doubling_batch mixed_requests start ≠ (Ok resp, s')) ∧
  ((∀ output w, failure_of (echo_decode output w).1 = None) →
   (doubling_batch mixed_requests start).1 = Raised (HTTPException 500 (StrOf IndexError))).
Proof.
  split; [exact mixed_requests_some_valid|].
  split; [reflexivity|]. split; [reflexivity|]. split; [vm_compute; lia|].
  apply (batch_surplus_rows _ _ _ echo_tokenizer doubling_generate echo_decode
           mixed_requests start mixed_prompts tt (mixed_prompts ++ mixed_prompts) tt).
  - exact mixed_requests_some_valid.
  - reflexivity.
  - reflexivity.
  - vm_compute; lia.
Defined.

Lemma batch_missing_rows_witness :
  short_batch mixed_requests start =
    (Ok short_response, (short_batch mixed_requests start).2) ∧
  echo_tokenizer (Batch (prompt_text <$> filter valid (queries mixed_requests))) tt
    = (Ok mixed_prompts, tt) ∧
  first_row_generate mixed_prompts tt = (Ok [prompt_text request_a], tt) ∧
  queries mixed_requests !! 3 = Some request_c ∧
  valid request_c ∧
  length [prompt_text request_a] ≤ rank 3 (queries mixed_requests) ∧
  body_responses short_response !! 3 = Some (placeholder_dict (chat_id request_c)).
Proof.
  assert (valid request_c) as Hv by (split; intros H; discriminate H).
  assert (length [prompt_text request_a] ≤ rank 3 (queries mixed_requests)) as Hr
    by (vm_compute; lia).
  split; [vm_compute; reflexivity|].
  split; [reflexivity|]. split; [reflexivity|]. split; [reflexivity|].
  split; [exact Hv|]. split; [exact Hr|].
  refine (proj2 (batch_missing_rows _ _ _ echo_tokenizer first_row_generate echo_decode
            mixed_requests start (short_batch mixed_requests start).2 short_response
            mixed_prompts tt [prompt_text request_a] tt 3 request_c
            _ eq_refl eq_refl eq_refl Hv) Hr).
  vm_compute; reflexivity.
Defined.

Lemma batch_chat_id_kept_witness :
  echo_batch mixed_requests start =
    (Ok mixed_response, (echo_batch mixed_requests start).2) ∧
  queries mixed_requests !! 0 = Some untitled_request ∧
  ∃ d, body_responses mixed_response !! 0 = Some d ∧
       d !! "chat_id" = Some (VStr (query_name 0)) ∧
       query_name 0 ≠ [].
Proof.
  split; [vm_compute; reflexivity|]. split; [reflexivity|].
  apply (batch_chat_id_kept _ _ _ echo_tokenizer echo_generate echo_decode
           mixed_requests start (echo_batch mixed_requests start).2 mixed_response
           0 untitled_request).
  - vm_compute; reflexivity.
  - reflexivity.
Defined.

Lemma batch_invalid_items_isolated_witness :
  echo_batch mixed_requests start =
    (Ok mixed_response, (echo_batch mixed_requests start).2) ∧
  filter valid (queries mixed_requests) ≠ [] ∧
  ∃ resp',
    echo_batch {| queries := filter valid (queries mixed_requests) |} start
      = (Ok resp', (echo_batch mixed_requests start).2) ∧
    ∀ i q, queries mixed_requests !! i = Some q → valid q →
           body_responses resp' !! rank i (queries mixed_requests)
           = body_responses mixed_response !! i.
Proof.
  split; [vm_compute; reflexivity|].
  split; [exact mixed_requests_some_valid|].
  apply (batch_invalid_items_isolated _ _ _ echo_tokenizer echo_generate echo_decode
           mixed_requests start (echo_batch mixed_requests start).2 mixed_response).
  - vm_compute; reflexivity.
  - exact mixed_requests_some_valid.
Defined.

Lemma chat_success_path_witness :
  chat_id request_a ≠ [] ∧ user_prompt request_a ≠ [] ∧
  echo_tokenizer (Single (prompt_text request_a)) tt = (Ok [prompt_text request_a], tt) ∧
  echo_generate [prompt_text request_a] tt
    = (Ok [lit "echo:" ++ prompt_text request_a], tt) ∧
  echo_decode (lit "echo:" ++ prompt_text request_a) tt
    = (Ok (lit "echo:" ++ prompt_text request_a), tt) ∧
  echo_chat request_a start =
  (Ok (response_dict (VStr (chat_id request_a)) (lit "echo:" ++ prompt_text request_a)),
   {| world := tt;
      journal := journal start ++
        [ Called (TokenizerCall (Single (prompt_text request_a))) None;
          Called (GenerateCall [prompt_text request_a]) None;
          Called (DecodeCall (lit "echo:" ++ prompt_text request_a)) None ] |}).
Proof.
  split; [discriminate|]. split; [discriminate|].
  split; [reflexivity|]. split; [reflexivity|]. split; [reflexivity|].
  apply (chat_success_path _ _ _ echo_tokenizer echo_generate echo_decode
           request_a start [prompt_text request_a] tt
           (lit "echo:" ++ prompt_text request_a) [] tt
           (lit "echo:" ++ prompt_text request_a) tt);
    [discriminate|discriminate|reflexivity|reflexivity|reflexivity].
Defined.

Lemma chat_no_rows_witness :
  chat_id request_a ≠ [] ∧ user_prompt request_a ≠ [] ∧
  echo_tokenizer (Single (prompt_text request_a)) tt = (Ok [prompt_text request_a], tt) ∧
  silent_generate [prompt_text request_a] tt = (Ok [], tt) ∧
  silent_chat request_a start =
  (Raised (HTTPException 500 (StrOf IndexError)),
   {| world := tt;
      journal := journal start ++
        [ Called (TokenizerCall (Single (prompt_text request_a))) None;
          Called (GenerateCall [prompt_text request_a]) None ] |}).
Proof.
  split; [discriminate|]. split; [discriminate|].
  split; [reflexivity|]. split; [reflexivity|].
  apply (chat_no_rows _ _ _ echo_tokenizer silent_generate echo_decode
           request_a start [prompt_text request_a] tt tt);
    [discriminate|discriminate|reflexivity|reflexivity].
Defined.

Lemma chat_engine_failure_witness :
  let ev := Called (GenerateCall [prompt_text request_a])
                   (Some (EngineError (lit "out of memory"))) in
  ev ∈ journal (failing_chat request_a start).2 ∧
  failure ev = Some (EngineError (lit "out of memory")) ∧
  (failing_chat request_a start).1 =
    Raised (HTTPException 500 (StrOf (EngineError (lit "out of memory")))) ∧
  status_of (failing_chat request_a start).1 = 500%Z.
Proof.
  cbv zeta.
  assert (Called (GenerateCall [prompt_text request_a])
                 (Some (EngineError (lit "out of memory")))
          ∈ journal (failing_chat request_a start).2) as Hin.
  { vm_compute. apply list_elem_of_further, list_elem_of_here. }
  split; [exact Hin|]. split; [reflexivity|].
  exact (chat_engine_failure _ _ _ echo_tokenizer failing_generate echo_decode
           request_a tt _ _ Hin eq_refl).
Defined.
